(** * mpi_sum_sort: distributed sum and parallel sample sort

    A shallow embedding of [src/mpi_sum_sort.py].  The program is SPMD: every
    rank of the communicator runs the same text on its own [local_data] and
    the ranks meet at blocking collectives.  The embedding runs all ranks in
    lock step: a _world_ is the list, indexed by rank, of the value a variable
    has on each rank; a local statement is mapped over the world and a
    collective is a function of the whole world.

    Array elements are float64 in the source.  They are modelled as exact
    integers [Z] with the usual total order: rounding, NaN and signed zeros
    are outside the model.  [np.linspace] is computed with exact division,
    where numpy rounds in float64; the statements on the sampled positions
    are limited to what holds for both (see [Numpy.linspace]). *)

From Stdlib Require Import ZArith List Lia Bool Arith Permutation Sorted.
Import ListNotations.

(** ** Errors, the log of collectives and the monad that threads them *)

(** Exceptions the modelled statements can raise. *)
Inductive error : Type :=
| IndexError   (* fancy indexing out of bounds *)
| TypeError.   (* iterating over [None] *)

Inductive result (A : Type) : Type :=
| Ok (a : A)
| Err (e : error).
Arguments Ok {A} a.
Arguments Err {A} e.

(** The collective operations of mpi4py the program issues. *)
Inductive collective : Type :=
| Gather_call
| bcast_call
| Alltoall_call
| Alltoallv_call.

(** A run of the group: the collectives issued so far, and a value or the
    exception that aborted the job. *)
Definition Run (A : Type) : Type := (list collective * result A)%type.

Definition ret {A} (a : A) : Run A := ([], Ok a).

Definition bind {A B} (m : Run A) (f : A -> Run B) : Run B :=
  match m with
  | (log, Err e) => (log, Err e)
  | (log, Ok a) => let '(log', r) := f a in (log ++ log', r)
  end.

Definition lift {A} (r : result A) : Run A := ([], r).

Definition issue {A} (c : collective) (a : A) : Run A := ([c], Ok a).

Notation "x <- m ;; k" := (bind m (fun x => k))
  (at level 61, m at next level, right associativity).

Definition issued {A} (m : Run A) : list collective := fst m.
Definition outcome {A} (m : Run A) : result A := snd m.

(** Run a fallible local statement on every element, left to right. *)
Fixpoint mapM {A B} (f : A -> result B) (l : list A) : result (list B) :=
  match l with
  | [] => Ok []
  | a :: l' =>
      match f a with
      | Err e => Err e
      | Ok b =>
          match mapM f l' with
          | Err e => Err e
          | Ok bs => Ok (b :: bs)
          end
      end
  end.

(** ** The numpy operations the program uses *)

Module Numpy.

(** [a.sort()]: ascending.  The result of sorting over a total order does not
    depend on the algorithm; insertion is used here. *)
Fixpoint insert (x : Z) (l : list Z) : list Z :=
  match l with
  | [] => [x]
  | y :: l' => if (x <=? y)%Z then x :: l else y :: insert x l'
  end.

Definition sort (l : list Z) : list Z := fold_right insert [] l.

(** [np.sum] over values and over counts. *)
Definition sum (l : list Z) : Z := fold_right Z.add 0%Z l.
Definition sum_counts (l : list nat) : nat := fold_right Nat.add 0 l.

(** [np.empty(n)]: [n] cells of unspecified content. *)
Definition empty (n : nat) : list Z := repeat 0%Z n.

(** [np.linspace(start, stop, num, dtype=int)]: [num] points, the last one
    pinned to [stop] when [num > 1], the others [start + i*(stop-start)/(num-1)]
    rounded towards minus infinity.  The quotient is exact here.  numpy
    multiplies [i] by the float64 step [(stop-start)/(num-1)] and floors the
    product, which is one less than the exact value at some inputs where the
    exact value is an integer (start 0, stop 122, num 15, i = 7: 60 in numpy,
    61 here).  Range, order and spacing of the points are the same. *)
Definition linspace (start stop : Z) (num : nat) : list Z :=
  let div := (Z.of_nat num - 1)%Z in
  map (fun i : nat =>
         let i := Z.of_nat i in
         if ((0 <? div) && (i =? div))%Z then stop
         else (start + (i * (stop - start)) / div)%Z)
      (seq 0 num).

(** [a[1:-1]]. *)
Definition interior {A} (l : list A) : list A := removelast (tl l).

(** [a[i]] for one integer index: negative indices count from the end. *)
Definition getitem (a : list Z) (i : Z) : result Z :=
  let n := Z.of_nat (length a) in
  if ((0 <=? i) && (i <? n))%Z then Ok (nth (Z.to_nat i) a 0%Z)
  else if ((- n <=? i) && (i <? 0))%Z then Ok (nth (Z.to_nat (n + i)) a 0%Z)
  else Err IndexError.

(** [a[indices]] for an integer index array. *)
Definition take (a : list Z) (indices : list Z) : result (list Z) :=
  mapM (getitem a) indices.

(** [a[lo:hi]] for bounds [0 <= lo], [0 <= hi]; empty when [hi <= lo]. *)
Definition slice {A} (lo hi : nat) (a : list A) : list A :=
  firstn (hi - lo) (skipn lo a).

(** [a[lo:]]. *)
Definition slice_from {A} (lo : nat) (a : list A) : list A := skipn lo a.

(** [a[::step]] for [step >= 1]: the elements at 0, step, 2*step, ... *)
Definition stride (step : nat) (a : list Z) : list Z :=
  map (fun k => nth (k * step) a 0%Z)
      (seq 0 ((length a + step - 1) / step)).

(** The bisection loop behind [np.searchsorted(a, v, side='right')]:
    [while lo < hi: mid = lo + (hi-lo)//2; if a[mid] <= v: lo = mid+1 else hi = mid]. *)
Fixpoint bisect_right (fuel : nat) (a : list Z) (v : Z) (lo hi : nat) : nat :=
  match fuel with
  | O => lo
  | S fuel' =>
      if lo <? hi then
        let mid := lo + (hi - lo) / 2 in
        if (nth mid a 0 <=? v)%Z then bisect_right fuel' a v (mid + 1) hi
        else bisect_right fuel' a v lo mid
      else lo
  end.

Definition searchsorted (a : list Z) (v : Z) : nat :=
  bisect_right (length a) a v 0 (length a).

(** [np.cumsum]. *)
Fixpoint cumsum_from (acc : nat) (l : list nat) : list nat :=
  match l with
  | [] => []
  | c :: l' => (acc + c) :: cumsum_from (acc + c) l'
  end.

Definition cumsum (l : list nat) : list nat := cumsum_from 0 l.

(** [np.insert(np.cumsum(counts), 0, 0)[:-1]]: exclusive prefix sums. *)
Definition displs (counts : list nat) : list nat :=
  removelast (0 :: cumsum counts).

End Numpy.

(** ** The collectives, over a world of per-rank buffers *)

Module MPI.

(** [comm.Gather(sendbuf, recvbuf, root=0)]: the root's receive buffer is the
    rank-ordered concatenation of the send buffers; the other ranks passed
    [None] and keep it. *)
Definition Gather (sendbufs : list (list Z)) : Run (list (option (list Z))) :=
  issue Gather_call
    (map (fun rank => if rank =? 0 then Some (concat sendbufs) else None)
         (seq 0 (length sendbufs))).

(** [comm.bcast(obj, root=0)]: every rank gets the root's object. *)
Definition bcast {A} (objs : list (option A)) : Run (list (option A)) :=
  issue bcast_call (repeat (nth 0 objs None) (length objs)).

(** [comm.Alltoall(send, recv)]: element [j] of rank [i]'s receive vector is
    element [i] of rank [j]'s send vector. *)
Definition Alltoall (send : list (list nat)) : Run (list (list nat)) :=
  issue Alltoall_call
    (map (fun i => map (fun row => nth i row 0) send) (seq 0 (length send))).

(** Store [piece] in [buf] from offset [off] on. *)
Definition write_at (buf : list Z) (off : nat) (piece : list Z) : list Z :=
  firstn off buf ++ piece ++ skipn (off + length piece) buf.

(** What rank [i] finds in its receive buffer after [Alltoallv]: for every
    source [j], the block of [j]'s send buffer at [j]'s displacement for [i],
    stored at [i]'s receive displacement for [j]. *)
Definition Alltoallv_recv (send_data : list (list Z))
    (send_counts send_displs : list (list nat))
    (i : nat) (recv_buf : list Z) (recv_displs : list nat) : list Z :=
  fold_left
    (fun buf j =>
       let sd := nth i (nth j send_displs []) 0 in
       let sc := nth i (nth j send_counts []) 0 in
       write_at buf (nth j recv_displs 0)
                (Numpy.slice sd (sd + sc) (nth j send_data [])))
    (seq 0 (length send_data)) recv_buf.

(** [comm.Alltoallv([send_data, send_counts, send_displs, DOUBLE],
                    [recv_data, recv_counts, recv_displs, DOUBLE])]. *)
Definition Alltoallv (send_data : list (list Z))
    (send_counts send_displs : list (list nat))
    (recv_data : list (list Z)) (recv_displs : list (list nat))
    : Run (list (list Z)) :=
  issue Alltoallv_call
    (map (fun i => Alltoallv_recv send_data send_counts send_displs i
                     (nth i recv_data []) (nth i recv_displs []))
         (seq 0 (length send_data))).

End MPI.

(** ** parallel_sum *)

(** Lines 21-23 on one rank. *)
Definition total_sum (rank : nat) (local_sums : option (list Z)) : option Z :=
  if rank =? 0 then
    match local_sums with
    | Some buf => Some (Numpy.sum buf)
    | None => None
    end
  else None.

(** [parallel_sum(data, comm)] on every rank of the group; [world] holds each
    rank's [data].  The result holds each rank's return value. *)
Definition parallel_sum (world : list (list Z)) : Run (list (option Z)) :=
  let size := length world in
  let local_sum := map Numpy.sum world in
  local_sums <- MPI.Gather (map (fun s => [s]) local_sum) ;;
  ret (map (fun rank => total_sum rank (nth rank local_sums None)) (seq 0 size)).

(** ** parallel_sample_sort, phase by phase *)

(** Step 2, lines 42-43: the index positions sampled in a buffer of length [n]. *)
Definition sample_indices (size n : nat) : list Z :=
  let num_samples := size - 1 in
  Numpy.interior (Numpy.linspace 0 (Z.of_nat n - 1) (num_samples + 2)).

(** Step 2, line 44: the Sampler. *)
Definition Sampler (size : nat) (local_data : list Z) : result (list Z) :=
  Numpy.take local_data (sample_indices size (length local_data)).

(** Step 3, lines 53-56 on one rank: the Pivot Selector. *)
Definition select_pivots (size : nat) (all_samples : list Z) : list Z :=
  Numpy.stride size (Numpy.sort all_samples).

Definition pivots_at (rank size : nat) (all_samples : option (list Z))
    : option (list Z) :=
  if rank =? 0 then
    match all_samples with
    | Some buf => Some (select_pivots size buf)
    | None => None
    end
  else None.

(** Step 4, lines 60-65: the loop over the pivots, carrying [start_idx] and
    [partitions]. *)
Definition partition_step (local_data : list Z)
    (st : nat * list (list Z)) (pivot : Z) : nat * list (list Z) :=
  let '(start_idx, partitions) := st in
  let end_idx := Numpy.searchsorted local_data pivot in
  (end_idx, partitions ++ [Numpy.slice start_idx end_idx local_data]).

Definition partition_loop (local_data : list Z) (pivots : list Z)
    : nat * list (list Z) :=
  fold_left (partition_step local_data) pivots (0, []).

(** Step 4, lines 60-66: the Partitioner. *)
Definition Partitioner (local_data : list Z) (pivots : list Z)
    : list (list Z) :=
  let '(start_idx, partitions) := partition_loop local_data pivots in
  partitions ++ [Numpy.slice_from start_idx local_data].

(** Line 62 iterates over [pivots]: [None] is not iterable. *)
Definition partitions_at (local_data : list Z) (pivots : option (list Z))
    : result (list (list Z)) :=
  match pivots with
  | Some p => Ok (Partitioner local_data p)
  | None => Err TypeError
  end.

(** Line 68. *)
Definition send_counts_of (partitions : list (list Z)) : list nat :=
  map (@length Z) partitions.

(** [parallel_sample_sort(local_data, comm)] on every rank of the group;
    [world] holds each rank's [local_data], the result each rank's returned
    [recv_data]. *)
Definition parallel_sample_sort (world : list (list Z))
    : Run (list (list Z)) :=
  let size := length world in
  (* Step 1: local sort *)
  let local_data := map Numpy.sort world in
  (* Step 2: sample *)
  local_samples <- lift (mapM (Sampler size) local_data) ;;
  all_samples <- MPI.Gather local_samples ;;
  (* Step 3: pivots *)
  let pivots :=
    map (fun rank => pivots_at rank size (nth rank all_samples None))
        (seq 0 size) in
  pivots <- MPI.bcast pivots ;;
  (* Step 4: partition *)
  partitions <-
    lift (mapM (fun '(ld, p) => partitions_at ld p) (combine local_data pivots)) ;;
  let send_counts := map send_counts_of partitions in
  recv_counts <- MPI.Alltoall send_counts ;;
  let send_data := map (@concat Z) partitions in
  let send_displs := map Numpy.displs send_counts in
  let recv_displs := map Numpy.displs recv_counts in
  let recv_data :=
    map (fun rc => Numpy.empty (Numpy.sum_counts rc)) recv_counts in
  recv_data <-
    MPI.Alltoallv send_data send_counts send_displs recv_data recv_displs ;;
  (* Step 5: final local sort *)
  ret (map Numpy.sort recv_data).

(** ** main: the distribution of the input *)

(** Line 102. *)
Definition local_sizes (N size : nat) : list nat :=
  map (fun i => if i <? N mod size then N / size + 1 else N / size)
      (seq 0 size).

(** Line 110, [comm.Scatterv([data, local_sizes, displs, DOUBLE], local_data)]:
    rank [r] receives [local_sizes[r]] elements of [data] from [displs[r]] on. *)
Definition Scatterv (data : list Z) (sizes displs : list nat)
    : list (list Z) :=
  map (fun r => Numpy.slice (nth r displs 0) (nth r displs 0 + nth r sizes 0) data)
      (seq 0 (length sizes)).

(** The world [main] hands to the two routines. *)
Definition distribute (size : nat) (data : list Z) : list (list Z) :=
  let sizes := local_sizes (length data) size in
  Scatterv data sizes (Numpy.displs sizes).




(** ** Reference definitions for the statements *)

(** The Partitioner's loop as a recursion on the pivots still to visit. *)
Fixpoint buckets (local_data : list Z) (start_idx : nat) (pivots : list Z)
    : list (list Z) :=
  match pivots with
  | [] => [Numpy.slice_from start_idx local_data]
  | pivot :: rest =>
      let end_idx := Numpy.searchsorted local_data pivot in
      Numpy.slice start_idx end_idx local_data
        :: buckets local_data end_idx rest
  end.

(** The value range the specification gives bucket [k] of [P = |pivots| + 1]:
    [x <= pivot[0]] for the first, [pivot[k-1] < x <= pivot[k]] inside,
    [pivot[P-2] < x] for the last. *)
Definition in_bucket (pivots : list Z) (k : nat) (x : Z) : bool :=
  ((k =? 0) || (nth (k - 1) pivots 0 <? x)%Z)
  && ((length pivots <=? k) || (x <=? nth k pivots 0)%Z).

(** What rank [i] is sent: bucket [i] of every rank, in rank order. *)
Definition shard_of (partitions : list (list (list Z))) (i : nat) : list Z :=
  concat (map (fun parts => nth i parts []) partitions).

(** The buckets every rank cuts with the shared pivots. *)
Definition partitions_of (world : list (list Z)) (pivots : list Z)
    : list (list (list Z)) :=
  map (fun local_data => Partitioner local_data pivots) (map Numpy.sort world).

(** The four collectives of one sort, in program order. *)
Definition sort_collectives : list collective :=
  [Gather_call; bcast_call; Alltoall_call; Alltoallv_call].

(** ** Concrete runs *)

Example spec_example :
  outcome (parallel_sample_sort
             (distribute 3 [5;3;8;1;9;2;7;4;6;0;11;10]%Z))
  = Ok [[0;1;2;3]; [4;5;6]; [7;8;9;10;11]]%Z.
Proof. vm_compute. reflexivity. Qed.

(** ** Facts about the monad and the list helpers *)

Lemma mapM_ok {A B} (f : A -> result B) (g : A -> B) (l : list A) :
  (forall a, In a l -> f a = Ok (g a)) -> mapM f l = Ok (map g l).
Proof.
  induction l as [|a l IH]; intros H; simpl; [reflexivity|].
  rewrite (H a (or_introl eq_refl)), IH; [reflexivity|].
  intros b Hb. apply H. now right.
Qed.

Lemma mapM_err_inv {A B} (f : A -> result B) (l : list A) (e : error) :
  mapM f l = Err e -> exists a, In a l /\ f a = Err e.
Proof.
  induction l as [|a l IH]; simpl; [discriminate|].
  destruct (f a) as [b|e'] eqn:Ha.
  - destruct (mapM f l) as [bs|e'']; [discriminate|].
    intros [= ->]. destruct (IH eq_refl) as (x & Hx & Hfx).
    exists x. split; [now right | exact Hfx].
  - intros [= ->]. exists a. split; [now left | exact Ha].
Qed.

Lemma removelast_map {A B} (f : A -> B) (l : list A) :
  removelast (map f l) = map f (removelast l).
Proof.
  induction l as [|a [|b l] IH]; simpl in *; try reflexivity.
  now rewrite IH.
Qed.

Lemma not_NoDup_map {A B} (f : A -> B) (l : list A) :
  ~ NoDup l -> ~ NoDup (map f l).
Proof.
  intros H Hm. apply H. clear H.
  induction l as [|a l IH]; [constructor|].
  simpl in Hm. inversion Hm as [|? ? Hnin Hnd]; subst.
  constructor; [|now apply IH].
  intros Hin. apply Hnin. now apply in_map.
Qed.

(** ** The local sort *)

Section LocalSort.
Import Numpy.

Lemma insert_perm x l : Permutation (insert x l) (x :: l).
Proof.
  induction l as [|y l IH]; simpl; [reflexivity|].
  destruct (x <=? y)%Z; [reflexivity|].
  rewrite IH. apply perm_swap.
Qed.

Lemma sort_cons x l : sort (x :: l) = insert x (sort l).
Proof. reflexivity. Qed.

Lemma sort_perm l : Permutation (sort l) l.
Proof.
  induction l as [|x l IH]; [reflexivity|].
  now rewrite sort_cons, insert_perm, IH.
Qed.

Lemma sort_length l : length (sort l) = length l.
Proof. apply Permutation_length, sort_perm. Qed.

Lemma insert_sorted x l :
  StronglySorted Z.le l -> StronglySorted Z.le (insert x l).
Proof.
  induction 1 as [|y l Hs IH Hall]; simpl.
  - repeat constructor.
  - destruct (Z.leb_spec x y) as [Hle|Hlt].
    + constructor; [now constructor|].
      constructor; [exact Hle|].
      eapply Forall_impl; [|exact Hall]. simpl. intros; lia.
    + constructor; [exact IH|].
      eapply Permutation_Forall; [symmetry; apply insert_perm|].
      constructor; [lia | exact Hall].
Qed.

Lemma sort_sorted l : StronglySorted Z.le (sort l).
Proof.
  induction l as [|x l IH]; [constructor|].
  rewrite sort_cons. now apply insert_sorted.
Qed.

Lemma insert_fixed x l :
  Forall (Z.le x) l -> insert x l = x :: l.
Proof.
  destruct 1 as [|y l Hle _]; simpl; [reflexivity|].
  destruct (Z.leb_spec x y); [reflexivity | lia].
Qed.

(** Re-sorting a sorted buffer changes nothing. *)
Lemma sort_sorted_id l : StronglySorted Z.le l -> sort l = l.
Proof.
  induction 1 as [|x l Hs IH Hall]; [reflexivity|].
  rewrite sort_cons, IH. now apply insert_fixed.
Qed.

End LocalSort.

(** ** The Sampler *)

Section SamplerFacts.
Import Numpy.
Local Open Scope Z_scope.

(** Position [i] of the [size+1] points between [0] and [n-1], rounded down:
    what line 43 leaves after dropping the two end points. *)
Lemma sample_indices_eq (size n : nat) :
  (1 <= size)%nat ->
  sample_indices size n =
  map (fun i : nat => (Z.of_nat i * (Z.of_nat n - 1)) / Z.of_nat size)
      (seq 1 (size - 1)).
Proof.
  intros Hsize. unfold sample_indices, linspace, interior.
  replace (size - 1 + 2)%nat with (S size) by lia.
  destruct size as [|k]; [lia|].
  replace (S k - 1)%nat with k by lia.
  rewrite <- cons_seq, map_cons. cbn [tl].
  rewrite removelast_map, seq_S, removelast_last.
  apply map_ext_in. intros i Hi. apply in_seq in Hi.
  replace (Z.of_nat (S (S k)) - 1) with (Z.of_nat (S k)) by lia.
  replace (Z.of_nat i =? Z.of_nat (S k)) with false
    by (symmetry; apply Z.eqb_neq; lia).
  now rewrite andb_false_r, Z.add_0_l, Z.sub_0_r.
Qed.

Lemma sample_indices_length (size n : nat) :
  (1 <= size)%nat -> length (sample_indices size n) = (size - 1)%nat.
Proof.
  intros H. now rewrite sample_indices_eq, length_map, length_seq.
Qed.

Lemma sample_index_range (size n i : nat) :
  (1 <= n)%nat -> (1 <= i < size)%nat ->
  0 <= (Z.of_nat i * (Z.of_nat n - 1)) / Z.of_nat size < Z.of_nat n.
Proof.
  intros Hn Hi. split.
  - apply Z.div_pos; nia.
  - apply Z.div_lt_upper_bound; nia.
Qed.

Lemma sample_indices_in_range (size n : nat) (idx : Z) :
  (1 <= size)%nat -> (1 <= n)%nat ->
  In idx (sample_indices size n) -> 0 <= idx < Z.of_nat n.
Proof.
  intros Hsize Hn. rewrite sample_indices_eq by assumption.
  intros Hin. apply in_map_iff in Hin. destruct Hin as (i & <- & Hi).
  apply in_seq in Hi. apply sample_index_range; lia.
Qed.

Lemma getitem_in_range (a : list Z) (i : Z) :
  0 <= i < Z.of_nat (length a) -> getitem a i = Ok (nth (Z.to_nat i) a 0).
Proof.
  intros Hi. unfold getitem.
  destruct (Z.leb_spec 0 i); [|lia].
  destruct (Z.ltb_spec i (Z.of_nat (length a))); [reflexivity | lia].
Qed.

Lemma getitem_nil (i : Z) : getitem [] i = Err IndexError.
Proof.
  unfold getitem. simpl.
  destruct (Z.leb_spec 0 i), (Z.ltb_spec i 0); simpl; try reflexivity; lia.
Qed.

(** On a non-empty buffer every sampled position is valid. *)
Lemma Sampler_nonempty (size : nat) (local_data : list Z) :
  (1 <= size)%nat -> local_data <> [] ->
  Sampler size local_data =
  Ok (map (fun idx => nth (Z.to_nat idx) local_data 0)
          (sample_indices size (length local_data))).
Proof.
  intros Hsize Hne. unfold Sampler, take.
  apply mapM_ok. intros idx Hin. apply getitem_in_range.
  apply (sample_indices_in_range size); try assumption.
  destruct local_data; [congruence | simpl; lia].
Qed.

Lemma Sampler_nonempty_length (size : nat) (local_data samples : list Z) :
  (1 <= size)%nat -> local_data <> [] ->
  Sampler size local_data = Ok samples -> length samples = (size - 1)%nat.
Proof.
  intros Hsize Hne. rewrite Sampler_nonempty by assumption.
  intros [= <-]. now rewrite length_map, sample_indices_length.
Qed.

(** On an empty buffer the first sampled position is already invalid. *)
Lemma Sampler_empty (size : nat) :
  (2 <= size)%nat -> Sampler size [] = Err IndexError.
Proof.
  intros Hsize. unfold Sampler, take.
  rewrite sample_indices_eq by lia.
  destruct size as [|[|k]]; try lia.
  replace (S (S k) - 1)%nat with (S k) by lia.
  rewrite <- cons_seq, map_cons. cbn [mapM].
  now rewrite getitem_nil.
Qed.

(** With fewer cells than samples two sampled positions coincide. *)
Lemma sample_indices_repeat (size n : nat) :
  (1 <= n)%nat -> (n < size - 1)%nat -> ~ NoDup (sample_indices size n).
Proof.
  intros Hn Hlt Hnd.
  assert (Hincl : incl (sample_indices size n) (map Z.of_nat (seq 0 n))).
  { intros idx Hin.
    apply (sample_indices_in_range size n) in Hin; try lia.
    apply in_map_iff. exists (Z.to_nat idx). split; [lia|].
    apply in_seq. lia. }
  apply NoDup_incl_length in Hincl; [|exact Hnd].
  rewrite sample_indices_length, length_map, length_seq in Hincl; lia.
Qed.

End SamplerFacts.

(** ** Sorted lists by position *)

Section SortedFacts.
Local Open Scope Z_scope.

Lemma StronglySorted_nth (a : list Z) :
  StronglySorted Z.le a ->
  forall i j, (i <= j < length a)%nat -> nth i a 0 <= nth j a 0.
Proof.
  induction 1 as [|x a Hs IH Hall]; intros i j Hij; simpl in Hij; [lia|].
  destruct i as [|i], j as [|j]; simpl; try lia.
  - rewrite Forall_forall in Hall. apply Hall, nth_In. lia.
  - apply IH. lia.
Qed.

Lemma StronglySorted_map_seq {A} (R : A -> A -> Prop) (f : nat -> A)
    (n s : nat) :
  (forall i j, (s <= i < j)%nat -> (j < s + n)%nat -> R (f i) (f j)) ->
  StronglySorted R (map f (seq s n)).
Proof.
  revert s. induction n as [|n IH]; intros s Hmono; simpl; constructor.
  - apply IH. intros i j Hij Hj. apply Hmono; lia.
  - apply Forall_forall. intros y Hy.
    apply in_map_iff in Hy. destruct Hy as (j & <- & Hj).
    apply in_seq in Hj. apply Hmono; lia.
Qed.

Lemma StronglySorted_hd_min (a : list Z) (x : Z) :
  StronglySorted Z.le a -> In x a -> nth 0 a 0 <= x.
Proof.
  intros Hs Hin. destruct (In_nth a x 0 Hin) as (j & Hj & <-).
  apply StronglySorted_nth; [exact Hs | lia].
Qed.

End SortedFacts.

(** ** The Pivot Selector *)

Section PivotFacts.
Import Numpy.
Local Open Scope nat_scope.

Lemma stride_length (step : nat) (a : list Z) :
  length (stride step a) = (length a + step - 1) / step.
Proof. unfold stride. now rewrite length_map, length_seq. Qed.

Lemma stride_index_valid (step k : nat) (a : list Z) :
  1 <= step -> k < (length a + step - 1) / step -> k * step < length a.
Proof.
  intros Hstep Hk.
  destruct (Nat.lt_ge_cases (k * step) (length a)) as [|Hge]; [assumption|].
  exfalso. apply (Nat.lt_irrefl k).
  eapply Nat.lt_le_trans; [exact Hk|].
  apply Nat.lt_succ_r. apply Nat.Div0.div_lt_upper_bound. lia.
Qed.

Lemma stride_nth (step k : nat) (a : list Z) :
  k < (length a + step - 1) / step ->
  nth k (stride step a) 0%Z = nth (k * step) a 0%Z.
Proof.
  intros Hk. unfold stride.
  rewrite (nth_indep _ 0%Z (nth (0 * step) a 0%Z))
    by now rewrite length_map, length_seq.
  rewrite (map_nth (fun k => nth (k * step) a 0%Z)).
  now rewrite seq_nth.
Qed.

Lemma stride_sorted (step : nat) (a : list Z) :
  1 <= step -> StronglySorted Z.le a -> StronglySorted Z.le (stride step a).
Proof.
  intros Hstep Hs. unfold stride.
  apply StronglySorted_map_seq. intros i j Hij Hj.
  apply StronglySorted_nth; [exact Hs|]. split.
  - apply Nat.mul_le_mono_r. lia.
  - apply stride_index_valid; [exact Hstep | lia].
Qed.

Lemma stride_incl (step : nat) (a : list Z) :
  1 <= step -> incl (stride step a) a.
Proof.
  intros Hstep x Hx. unfold stride in Hx.
  apply in_map_iff in Hx. destruct Hx as (k & <- & Hk).
  apply in_seq in Hk. apply nth_In, stride_index_valid; lia.
Qed.

Lemma pivot_count (size : nat) :
  1 <= size -> (size * (size - 1) + size - 1) / size = size - 1.
Proof.
  intros Hsize.
  replace (size * (size - 1) + size - 1)
    with ((size - 1) * size + (size - 1)) by nia.
  rewrite Nat.div_add_l by lia.
  rewrite Nat.div_small by lia. lia.
Qed.

Lemma select_pivots_length (size : nat) (all_samples : list Z) :
  1 <= size -> length all_samples = size * (size - 1) ->
  length (select_pivots size all_samples) = size - 1.
Proof.
  intros Hsize Hlen. unfold select_pivots.
  now rewrite stride_length, sort_length, Hlen, pivot_count.
Qed.

Lemma select_pivots_sorted (size : nat) (all_samples : list Z) :
  1 <= size -> StronglySorted Z.le (select_pivots size all_samples).
Proof. intros Hsize. apply stride_sorted; [exact Hsize | apply sort_sorted]. Qed.

End PivotFacts.

(** ** The binary search *)

Section SearchFacts.
Import Numpy.
Local Open Scope nat_scope.

(** The loop invariant: everything left of [lo] is [<= v], everything from
    [hi] on is [> v]; with fuel for the whole interval the loop ends at the
    boundary between the two. *)
Lemma bisect_right_spec (a : list Z) (v : Z) :
  StronglySorted Z.le a ->
  forall fuel lo hi,
    hi - lo <= fuel -> lo <= hi <= length a ->
    (forall i, i < lo -> (nth i a 0 <= v)%Z) ->
    (forall i, hi <= i < length a -> (v < nth i a 0)%Z) ->
    bisect_right fuel a v lo hi <= length a /\
    (forall i, i < bisect_right fuel a v lo hi -> (nth i a 0 <= v)%Z) /\
    (forall i, bisect_right fuel a v lo hi <= i < length a ->
               (v < nth i a 0)%Z).
Proof.
  intros Hs. induction fuel as [|fuel IH]; intros lo hi Hfuel Hb Hlo Hhi.
  - cbn [bisect_right]. assert (hi = lo) by lia. subst hi.
    repeat split; [lia | exact Hlo | exact Hhi].
  - cbn [bisect_right]. destruct (Nat.ltb_spec lo hi) as [Hlt|Hge].
    + assert (Hhalf : (hi - lo) / 2 < hi - lo)
        by (apply Nat.div_lt; lia).
      set (mid := lo + (hi - lo) / 2) in *.
      assert (Hmid : lo <= mid < hi) by (unfold mid; lia).
      destruct (Z.leb_spec (nth mid a 0%Z) v) as [Hle|Hgt].
      * apply IH; try lia.
        -- intros i Hi.
           apply Z.le_trans with (nth mid a 0%Z); [|exact Hle].
           apply StronglySorted_nth; [exact Hs | lia].
        -- exact Hhi.
      * apply IH; try lia.
        -- exact Hlo.
        -- intros i Hi.
           apply Z.lt_le_trans with (nth mid a 0%Z); [exact Hgt|].
           apply StronglySorted_nth; [exact Hs | lia].
    + assert (hi = lo) by lia. subst hi.
      repeat split; [lia | exact Hlo | exact Hhi].
Qed.

Lemma searchsorted_spec (a : list Z) (v : Z) :
  StronglySorted Z.le a ->
  searchsorted a v <= length a /\
  (forall i, i < searchsorted a v -> (nth i a 0 <= v)%Z) /\
  (forall i, searchsorted a v <= i < length a -> (v < nth i a 0)%Z).
Proof.
  intros Hs. unfold searchsorted.
  apply bisect_right_spec; try assumption; try lia.
Qed.

Lemma searchsorted_le_length (a : list Z) (v : Z) :
  StronglySorted Z.le a -> searchsorted a v <= length a.
Proof. intros Hs. apply (searchsorted_spec a v Hs). Qed.

Lemma searchsorted_prefix (a : list Z) (v : Z) :
  StronglySorted Z.le a ->
  Forall (fun x => (x <=? v)%Z = true) (firstn (searchsorted a v) a).
Proof.
  intros Hs. destruct (searchsorted_spec a v Hs) as (Hk & Hpre & _).
  apply Forall_forall. intros x Hx.
  destruct (In_nth _ _ 0%Z Hx) as (i & Hi & <-).
  rewrite length_firstn in Hi. rewrite nth_firstn.
  destruct (Nat.ltb_spec i (searchsorted a v)); [|lia].
  apply Z.leb_le. apply Hpre. lia.
Qed.

Lemma searchsorted_suffix (a : list Z) (v : Z) :
  StronglySorted Z.le a ->
  Forall (fun x => (x <=? v)%Z = false) (skipn (searchsorted a v) a).
Proof.
  intros Hs. destruct (searchsorted_spec a v Hs) as (Hk & _ & Hsuf).
  apply Forall_forall. intros x Hx.
  destruct (In_nth _ _ 0%Z Hx) as (i & Hi & <-).
  rewrite length_skipn in Hi. rewrite nth_skipn.
  apply Z.leb_gt. apply Hsuf. lia.
Qed.

Lemma filter_all {A} (p : A -> bool) (l : list A) :
  Forall (fun x => p x = true) l -> filter p l = l.
Proof.
  induction 1 as [|x l Hx _ IH]; simpl; [reflexivity|].
  now rewrite Hx, IH.
Qed.

Lemma filter_none {A} (p : A -> bool) (l : list A) :
  Forall (fun x => p x = false) l -> filter p l = [].
Proof.
  induction 1 as [|x l Hx _ IH]; simpl; [reflexivity|].
  now rewrite Hx, IH.
Qed.

Lemma filter_split {A} (p : A -> bool) (l1 l2 : list A) :
  Forall (fun x => p x = true) l1 -> Forall (fun x => p x = false) l2 ->
  filter p (l1 ++ l2) = l1.
Proof.
  intros H1 H2.
  now rewrite filter_app, (filter_all p l1 H1), (filter_none p l2 H2), app_nil_r.
Qed.

Lemma filter_split_neg {A} (p : A -> bool) (l1 l2 : list A) :
  Forall (fun x => p x = true) l1 -> Forall (fun x => p x = false) l2 ->
  filter (fun x => negb (p x)) (l1 ++ l2) = l2.
Proof.
  intros H1 H2. rewrite filter_app, filter_none, filter_all; [reflexivity| |].
  - eapply Forall_impl; [|exact H2]. simpl. now intros x ->.
  - eapply Forall_impl; [|exact H1]. simpl. now intros x ->.
Qed.

(** On a sorted buffer the search cuts off exactly the elements [<= v]. *)
Lemma searchsorted_firstn (a : list Z) (v : Z) :
  StronglySorted Z.le a ->
  firstn (searchsorted a v) a = filter (fun x => (x <=? v)%Z) a.
Proof.
  intros Hs. rewrite <- (firstn_skipn (searchsorted a v) a) at 3.
  symmetry. apply filter_split;
    [now apply searchsorted_prefix | now apply searchsorted_suffix].
Qed.

Lemma searchsorted_skipn (a : list Z) (v : Z) :
  StronglySorted Z.le a ->
  skipn (searchsorted a v) a = filter (fun x => (v <? x)%Z) a.
Proof.
  intros Hs. rewrite <- (firstn_skipn (searchsorted a v) a) at 3.
  rewrite (filter_ext _ (fun x => negb (x <=? v)%Z))
    by (intros x; apply Z.ltb_antisym).
  symmetry. apply filter_split_neg;
    [now apply searchsorted_prefix | now apply searchsorted_suffix].
Qed.

Lemma searchsorted_count (a : list Z) (v : Z) :
  StronglySorted Z.le a ->
  searchsorted a v = length (filter (fun x => (x <=? v)%Z) a).
Proof.
  intros Hs. rewrite <- searchsorted_firstn by assumption.
  rewrite length_firstn. pose proof (searchsorted_le_length a v Hs). lia.
Qed.

Lemma filter_length_mono {A} (p q : A -> bool) (l : list A) :
  (forall x, p x = true -> q x = true) ->
  length (filter p l) <= length (filter q l).
Proof.
  intros Hpq. induction l as [|x l IH]; simpl; [lia|].
  destruct (p x) eqn:Hp.
  - rewrite (Hpq x Hp). simpl. lia.
  - destruct (q x); simpl; lia.
Qed.

Lemma searchsorted_mono (a : list Z) (v w : Z) :
  StronglySorted Z.le a -> (v <= w)%Z ->
  searchsorted a v <= searchsorted a w.
Proof.
  intros Hs Hvw. rewrite !searchsorted_count by assumption.
  apply filter_length_mono. intros x Hx.
  apply Z.leb_le. apply Z.leb_le in Hx. lia.
Qed.

End SearchFacts.

(** ** The Partitioner *)

Section PartitionerFacts.
Import Numpy.
Local Open Scope nat_scope.

Lemma Forall_skipn {A} (P : A -> Prop) (n : nat) (l : list A) :
  Forall P l -> Forall P (skipn n l).
Proof.
  intros H. rewrite <- (firstn_skipn n l) in H.
  now apply Forall_app in H.
Qed.

Lemma filter_filter {A} (p q : A -> bool) (l : list A) :
  filter p (filter q l) = filter (fun x => q x && p x) l.
Proof.
  induction l as [|x l IH]; simpl; [reflexivity|].
  destruct (q x); simpl; [|exact IH].
  destruct (p x); now rewrite IH.
Qed.

Lemma slice_whole {A} (s : nat) (l : list A) :
  slice s (length l) l = slice_from s l.
Proof.
  unfold slice, slice_from. apply firstn_all2.
  rewrite length_skipn. lia.
Qed.

Lemma slice_app_skipn {A} (s e : nat) (l : list A) :
  s <= e -> slice s e l ++ skipn e l = skipn s l.
Proof.
  intros Hse. unfold slice.
  replace e with ((e - s) + s) at 2 by lia.
  rewrite <- skipn_skipn. apply firstn_skipn.
Qed.

(** The loop of lines 60-66 and its recursive reading agree, whatever the
    loop has accumulated so far. *)
Lemma partition_loop_buckets (local_data pivots : list Z) :
  forall start_idx partitions,
    (let '(s, parts) :=
       fold_left (partition_step local_data) pivots (start_idx, partitions) in
     parts ++ [slice_from s local_data])
    = partitions ++ buckets local_data start_idx pivots.
Proof.
  induction pivots as [|pivot rest IH]; intros s acc; [reflexivity|].
  cbn [fold_left partition_step buckets].
  rewrite IH, <- app_assoc. reflexivity.
Qed.

Lemma Partitioner_buckets (local_data pivots : list Z) :
  Partitioner local_data pivots = buckets local_data 0 pivots.
Proof.
  unfold Partitioner, partition_loop.
  apply (partition_loop_buckets local_data pivots 0 []).
Qed.

Lemma buckets_length (local_data pivots : list Z) (s : nat) :
  length (buckets local_data s pivots) = S (length pivots).
Proof.
  revert s. induction pivots as [|p rest IH]; intros s; simpl;
    [reflexivity | now rewrite IH].
Qed.

Lemma Partitioner_length (local_data pivots : list Z) :
  length (Partitioner local_data pivots) = S (length pivots).
Proof. rewrite Partitioner_buckets. apply buckets_length. Qed.

(** Bucket [k] is the slice between two consecutive cuts. *)
Lemma buckets_nth (local_data pivots : list Z) :
  forall s k, k <= length pivots ->
    nth k (buckets local_data s pivots) [] =
    slice (match k with
           | 0 => s
           | S k' => searchsorted local_data (nth k' pivots 0%Z)
           end)
          (if k <? length pivots
           then searchsorted local_data (nth k pivots 0%Z)
           else length local_data)
          local_data.
Proof.
  induction pivots as [|p rest IH]; intros s k Hk.
  - simpl in Hk. replace k with 0 by lia. simpl.
    symmetry. apply slice_whole.
  - destruct k as [|k]; [reflexivity|].
    cbn [buckets nth length]. simpl in Hk.
    rewrite IH by lia.
    change (S k <? S (length rest)) with (k <? length rest).
    destruct k; reflexivity.
Qed.

Lemma buckets_concat (local_data : list Z) :
  StronglySorted Z.le local_data ->
  forall pivots s,
    StronglySorted Z.le pivots ->
    Forall (fun p => s <= searchsorted local_data p) pivots ->
    concat (buckets local_data s pivots) = skipn s local_data.
Proof.
  intros Hld. induction pivots as [|p rest IH]; intros s Hp Hs.
  - simpl. apply app_nil_r.
  - cbn [buckets concat].
    apply StronglySorted_inv in Hp. destruct Hp as [Hrest Hle].
    inversion Hs as [|? ? Hsp _]; subst.
    rewrite IH; [now apply slice_app_skipn | exact Hrest |].
    eapply Forall_impl; [|exact Hle]. simpl. intros q Hq.
    now apply searchsorted_mono.
Qed.

(** No element is lost or duplicated. *)
Lemma Partitioner_concat (local_data pivots : list Z) :
  StronglySorted Z.le local_data -> StronglySorted Z.le pivots ->
  concat (Partitioner local_data pivots) = local_data.
Proof.
  intros Hld Hp. rewrite Partitioner_buckets.
  rewrite buckets_concat; try assumption; [reflexivity|].
  apply Forall_forall. intros; lia.
Qed.

Lemma slice_between (local_data : list Z) (a b : Z) :
  StronglySorted Z.le local_data -> (a <= b)%Z ->
  slice (searchsorted local_data a) (searchsorted local_data b) local_data
  = filter (fun x => (a <? x)%Z && (x <=? b)%Z) local_data.
Proof.
  intros Hs Hab.
  pose proof (searchsorted_mono local_data a b Hs Hab) as Hmono.
  rewrite <- filter_filter, <- searchsorted_skipn by assumption.
  set (ca := searchsorted local_data a) in *.
  set (cb := searchsorted local_data b) in *.
  unfold slice.
  rewrite <- (firstn_skipn (cb - ca) (skipn ca local_data)) at 2.
  symmetry. apply filter_split.
  - rewrite firstn_skipn_comm. apply Forall_skipn.
    replace (ca + (cb - ca)) with cb by lia.
    now apply searchsorted_prefix.
  - rewrite skipn_skipn. replace (cb - ca + ca) with cb by lia.
    now apply searchsorted_suffix.
Qed.

(** Bucket [k] holds exactly the elements of the value range of [k]. *)
Lemma Partitioner_nth (local_data pivots : list Z) (k : nat) :
  StronglySorted Z.le local_data -> StronglySorted Z.le pivots ->
  k <= length pivots ->
  nth k (Partitioner local_data pivots) [] =
  filter (in_bucket pivots k) local_data.
Proof.
  intros Hld Hp Hk. rewrite Partitioner_buckets, buckets_nth by assumption.
  unfold in_bucket.
  destruct (Nat.ltb_spec k (length pivots)) as [Hlt|Hge];
    destruct k as [|k'].
  - (* first of several *)
    unfold slice. rewrite Nat.sub_0_r. cbn [skipn].
    rewrite searchsorted_firstn by assumption.
    apply filter_ext. intros x.
    destruct (Nat.leb_spec (length pivots) 0); [lia | reflexivity].
  - (* interior *)
    rewrite slice_between; try assumption.
    + apply filter_ext. intros x.
      destruct (Nat.leb_spec (length pivots) (S k')); [lia|].
      cbn [Nat.eqb orb]. now rewrite Nat.sub_succ, Nat.sub_0_r.
    + apply StronglySorted_nth; [exact Hp | lia].
  - (* the only bucket *)
    rewrite slice_whole. unfold slice_from. cbn [skipn].
    symmetry. apply filter_all. apply Forall_forall. intros x _.
    destruct (Nat.leb_spec (length pivots) 0); [reflexivity | lia].
  - (* last of several *)
    rewrite slice_whole. unfold slice_from.
    rewrite searchsorted_skipn by assumption.
    apply filter_ext. intros x.
    destruct (Nat.leb_spec (length pivots) (S k')); [|lia].
    cbn [Nat.eqb orb]. now rewrite Nat.sub_succ, Nat.sub_0_r, andb_true_r.
Qed.

End PartitionerFacts.

(** ** Counts, displacements and blocks *)

Section DisplsFacts.
Import Numpy.
Local Open Scope nat_scope.

Lemma nth_map_seq {A} (f : nat -> A) (n i : nat) (d : A) :
  i < n -> nth i (map f (seq 0 n)) d = f i.
Proof.
  intros Hi. rewrite (nth_indep _ d (f 0)) by now rewrite length_map, length_seq.
  now rewrite map_nth, seq_nth.
Qed.

Lemma nth_map_lt {A B} (f : A -> B) (l : list A) (i : nat) (d : B) (d' : A) :
  i < length l -> nth i (map f l) d = f (nth i l d').
Proof.
  intros Hi. rewrite (nth_indep _ d (f d')) by now rewrite length_map.
  apply map_nth.
Qed.

Lemma map_nth_seq {A} (l : list A) (d : A) :
  map (fun i => nth i l d) (seq 0 (length l)) = l.
Proof.
  apply (nth_ext _ _ d d).
  - now rewrite length_map, length_seq.
  - intros i Hi. rewrite length_map, length_seq in Hi.
    exact (nth_map_seq (fun k => nth k l d) (length l) i d Hi).
Qed.

Lemma firstn_succ_nth {A} (l : list A) (m : nat) (d : A) :
  m < length l -> firstn (S m) l = firstn m l ++ [nth m l d].
Proof.
  revert m. induction l as [|x l IH]; intros m Hm; simpl in Hm; [lia|].
  destruct m as [|m]; [reflexivity|].
  cbn [firstn nth app]. f_equal. apply IH. lia.
Qed.

Lemma sum_counts_app (l1 l2 : list nat) :
  sum_counts (l1 ++ l2) = sum_counts l1 + sum_counts l2.
Proof. apply list_sum_app. Qed.

Lemma sum_counts_lengths {A} (ls : list (list A)) :
  sum_counts (map (@length A) ls) = length (concat ls).
Proof. symmetry. apply length_concat. Qed.

Lemma cumsum_from_length (l : list nat) :
  forall acc, length (cumsum_from acc l) = length l.
Proof. induction l as [|c l IH]; intros acc; simpl; [|rewrite IH]; reflexivity. Qed.

Lemma cumsum_from_nth (l : list nat) :
  forall acc m, m < length l ->
    nth m (cumsum_from acc l) 0 = acc + sum_counts (firstn (S m) l).
Proof.
  induction l as [|c l IH]; intros acc m Hm; simpl in Hm; [lia|].
  destruct m as [|m].
  - cbn [cumsum_from nth firstn]. simpl. lia.
  - cbn [cumsum_from nth]. rewrite IH by lia.
    rewrite (firstn_cons (S m) c l). simpl. lia.
Qed.

Lemma displs_length (counts : list nat) :
  length (displs counts) = length counts.
Proof.
  unfold displs, cumsum. rewrite removelast_firstn_len, length_firstn.
  simpl. rewrite cumsum_from_length. lia.
Qed.

(** Displacement [m] is the total of the counts before [m]. *)
Lemma displs_nth (counts : list nat) (m : nat) :
  m < length counts ->
  nth m (displs counts) 0 = sum_counts (firstn m counts).
Proof.
  intros Hm. unfold displs, cumsum.
  rewrite removelast_firstn_len, nth_firstn.
  cbn [length pred]. rewrite cumsum_from_length.
  destruct (Nat.ltb_spec m (length counts)); [|lia].
  destruct m as [|m]; [reflexivity|].
  cbn [nth]. rewrite cumsum_from_nth by lia. reflexivity.
Qed.

(** Block [i] of the concatenation, cut at its displacement and count. *)
Lemma slice_concat {A} (parts : list (list A)) (i : nat) :
  i < length parts ->
  slice (length (concat (firstn i parts)))
        (length (concat (firstn i parts)) + length (nth i parts []))
        (concat parts)
  = nth i parts [].
Proof.
  intros Hi.
  assert (Hdec : concat parts =
                 concat (firstn i parts) ++ nth i parts []
                   ++ concat (skipn (S i) parts)).
  { rewrite <- (firstn_skipn (S i) parts) at 1.
    rewrite (firstn_succ_nth parts i []) by assumption.
    rewrite !concat_app. cbn [concat]. now rewrite app_nil_r, <- app_assoc. }
  unfold slice.
  set (before := concat (firstn i parts)) in *.
  set (block := nth i parts []) in *.
  rewrite Hdec, skipn_app, skipn_all, Nat.sub_diag. cbn [skipn app].
  replace (length before + length block - length before)
    with (length block + 0) by lia.
  rewrite firstn_app_2. cbn [firstn]. apply app_nil_r.
Qed.

End DisplsFacts.

(** ** The exchange *)

Section CollectiveFacts.
Import Numpy MPI.
Local Open Scope nat_scope.

Lemma fold_left_ext_in {A B} (f g : A -> B -> A) (l : list B) :
  (forall a b, In b l -> f a b = g a b) ->
  forall a, fold_left f l a = fold_left g l a.
Proof.
  induction l as [|b l IH]; intros Hfg a; [reflexivity|].
  cbn [fold_left]. rewrite Hfg by now left.
  apply IH. intros a' b' Hb'. apply Hfg. now right.
Qed.

Lemma write_at_append (done rest piece : list Z) :
  write_at (done ++ rest) (length done) piece
  = done ++ piece ++ skipn (length piece) rest.
Proof.
  unfold write_at.
  rewrite firstn_app, firstn_all, Nat.sub_diag. cbn [firstn].
  rewrite app_nil_r, skipn_app.
  rewrite skipn_all2 by lia.
  now replace (length done + length piece - length done)
    with (length piece) by lia.
Qed.

(** After the first [m] blocks are stored at their displacements the buffer
    starts with their concatenation; the cells behind are untouched. *)
Lemma write_blocks (pieces : list (list Z)) (buf : list Z) :
  forall m, m <= length pieces ->
    fold_left
      (fun b j =>
         write_at b (nth j (displs (map (@length Z) pieces)) 0)
                  (nth j pieces []))
      (seq 0 m) buf
    = concat (firstn m pieces)
        ++ skipn (length (concat (firstn m pieces))) buf.
Proof.
  induction m as [|m IH]; intros Hm; [reflexivity|].
  rewrite seq_S, fold_left_app, IH by lia. cbn [fold_left Nat.add].
  rewrite displs_nth by (rewrite length_map; lia).
  rewrite firstn_map, sum_counts_lengths, write_at_append.
  rewrite (firstn_succ_nth pieces m []) by lia.
  rewrite concat_app. cbn [concat]. rewrite app_nil_r, <- app_assoc.
  rewrite skipn_skipn, length_app.
  do 3 f_equal. lia.
Qed.

Lemma write_all_blocks (pieces : list (list Z)) (buf : list Z) :
  length buf = length (concat pieces) ->
  fold_left
    (fun b j =>
       write_at b (nth j (displs (map (@length Z) pieces)) 0)
                (nth j pieces []))
    (seq 0 (length pieces)) buf
  = concat pieces.
Proof.
  intros Hlen. rewrite write_blocks by lia.
  rewrite firstn_all, skipn_all2 by lia. apply app_nil_r.
Qed.

(** The count rank [j] announces for rank [i] is the size of its bucket
    [i]. *)
Lemma send_count_nth (parts : list (list Z)) (i : nat) :
  nth i (send_counts_of parts) 0 = length (nth i parts []).
Proof. unfold send_counts_of. apply (map_nth (@length Z) parts [] i). Qed.

(** The displacement of bucket [i] in the send buffer is the total size of
    the buckets before it. *)
Lemma send_displ_nth (parts : list (list Z)) (i : nat) :
  i < length parts ->
  nth i (displs (send_counts_of parts)) 0 = length (concat (firstn i parts)).
Proof.
  intros Hi. unfold send_counts_of.
  rewrite displs_nth by (rewrite length_map; exact Hi).
  now rewrite firstn_map, sum_counts_lengths.
Qed.

(** What rank [i] receives: bucket [i] of every rank, in rank order. *)
Lemma Alltoallv_recv_shard (partitions : list (list (list Z)))
    (i : nat) (buf : list Z) :
  Forall (fun parts => i < length parts) partitions ->
  length buf = length (shard_of partitions i) ->
  Alltoallv_recv (map (@concat Z) partitions)
    (map send_counts_of partitions)
    (map displs (map send_counts_of partitions))
    i buf
    (displs (map (fun row => nth i row 0) (map send_counts_of partitions)))
  = shard_of partitions i.
Proof.
  intros Hparts Hbuf. unfold Alltoallv_recv, shard_of in *.
  set (pieces := map (fun parts => nth i parts []) partitions) in *.
  assert (Hcounts : map (fun row => nth i row 0)
                        (map send_counts_of partitions)
                    = map (@length Z) pieces).
  { unfold pieces. rewrite !map_map. apply map_ext.
    intros parts. apply send_count_nth. }
  rewrite Hcounts, length_map.
  replace (length partitions) with (length pieces)
    by (unfold pieces; apply length_map).
  rewrite <- (write_all_blocks pieces buf Hbuf).
  apply fold_left_ext_in. intros b j Hj. apply in_seq in Hj.
  assert (Hjlen : j < length partitions)
    by (unfold pieces in Hj; rewrite length_map in Hj; lia).
  f_equal.
  rewrite (nth_map_lt (@concat Z) partitions j [] []) by assumption.
  rewrite !map_map.
  rewrite (nth_map_lt (fun x => displs (send_counts_of x)) partitions j [] [])
    by assumption.
  rewrite (nth_map_lt send_counts_of partitions j [] []) by assumption.
  unfold pieces.
  rewrite (nth_map_lt (fun parts => nth i parts []) partitions j [] [])
    by assumption.
  set (parts := nth j partitions []).
  assert (Hi : i < length parts).
  { rewrite Forall_forall in Hparts. apply Hparts. now apply nth_In. }
  rewrite (send_displ_nth parts i Hi), send_count_nth.
  now apply slice_concat.
Qed.

End CollectiveFacts.

(** ** The whole sort in closed form *)

Section PipelineFacts.
Import Numpy MPI.
Local Open Scope nat_scope.

Lemma bind_lift_ok {A B} (a : A) (k : A -> Run B) :
  bind (lift (Ok a)) k = k a.
Proof. unfold bind, lift. now destruct (k a). Qed.

Lemma bind_lift_err {A B} (e : error) (k : A -> Run B) :
  bind (lift (Err e)) k = ([], Err e).
Proof. reflexivity. Qed.

Lemma bind_issue {A B} (c : collective) (a : A) (k : A -> Run B) :
  bind (issue c a) k = let '(log, r) := k a in (c :: log, r).
Proof. reflexivity. Qed.

Lemma mapM_length {A B} (f : A -> result B) (l : list A) (bs : list B) :
  mapM f l = Ok bs -> length bs = length l.
Proof.
  revert bs. induction l as [|a l IH]; intros bs; simpl.
  - now intros [= <-].
  - destruct (f a); [|discriminate].
    destruct (mapM f l) as [bs'|]; [|discriminate].
    intros [= <-]. simpl. now rewrite (IH bs' eq_refl).
Qed.

Lemma mapM_Forall {A B} (f : A -> result B) (P : B -> Prop) (l : list A) :
  (forall a b, In a l -> f a = Ok b -> P b) ->
  forall bs, mapM f l = Ok bs -> Forall P bs.
Proof.
  induction l as [|a l IH]; intros HP bs; simpl.
  - intros [= <-]. constructor.
  - destruct (f a) as [b|] eqn:Hfa; [|discriminate].
    destruct (mapM f l) as [bs'|]; [|discriminate].
    intros [= <-]. constructor.
    + apply (HP a b); [now left | exact Hfa].
    + apply IH; [|reflexivity]. intros a' b' Ha'. apply HP. now right.
Qed.

Lemma combine_repeat {A B} (l : list A) (b : B) :
  combine l (repeat b (length l)) = map (fun a => (a, b)) l.
Proof. induction l as [|a l IH]; simpl; [|rewrite IH]; reflexivity. Qed.

(** Every sample set has [size - 1] elements, whatever the buffer. *)
Lemma Sampler_length (size : nat) (local_data samples : list Z) :
  1 <= size -> Sampler size local_data = Ok samples ->
  length samples = size - 1.
Proof.
  intros Hsize Hok. destruct local_data as [|x l].
  - destruct (Nat.eq_dec size 1) as [->|Hne].
    + vm_compute in Hok. now injection Hok as <-.
    + rewrite Sampler_empty in Hok by lia. discriminate.
  - now apply (Sampler_nonempty_length size (x :: l)).
Qed.

Lemma concat_uniform_length {A} (ls : list (list A)) (k : nat) :
  Forall (fun s => length s = k) ls -> length (concat ls) = length ls * k.
Proof.
  induction 1 as [|s l Hs _ IH]; [reflexivity|].
  cbn [concat length]. rewrite length_app, Hs, IH. lia.
Qed.

Lemma gathered_samples_length (size : nat) (local_data local_samples : list (list Z)) :
  1 <= size -> length local_data = size ->
  mapM (Sampler size) local_data = Ok local_samples ->
  length (concat local_samples) = size * (size - 1).
Proof.
  intros Hsize Hlen Hok.
  assert (Hall : Forall (fun s => length s = size - 1) local_samples).
  { apply (mapM_Forall (Sampler size) _ local_data); [|exact Hok].
    intros a b _. now apply Sampler_length. }
  rewrite (concat_uniform_length _ _ Hall), (mapM_length _ _ _ Hok), Hlen.
  reflexivity.
Qed.

(** The root computes the pivots and the broadcast hands them to all. *)
Lemma root_pivots (size : nat) (local_samples : list (list Z)) :
  1 <= size -> length local_samples = size ->
  nth 0
    (map (fun rank =>
            pivots_at rank size
              (nth rank
                 (map (fun rank =>
                         if rank =? 0 then Some (concat local_samples)
                         else None)
                      (seq 0 (length local_samples)))
                 None))
         (seq 0 size))
    None
  = Some (select_pivots size (concat local_samples)).
Proof.
  intros Hsize Hlen. rewrite nth_map_seq by lia.
  rewrite Hlen, nth_map_seq by lia. reflexivity.
Qed.

Lemma partitions_at_all (local_data : list (list Z)) (pivots : list Z)
    (size : nat) :
  size = length local_data ->
  mapM (fun '(ld, p) => partitions_at ld p)
       (combine local_data (repeat (Some pivots) size))
  = Ok (map (fun ld => Partitioner ld pivots) local_data).
Proof.
  intros ->. rewrite combine_repeat.
  rewrite (mapM_ok _ (fun '(ld, p) => Partitioner ld pivots)).
  - now rewrite map_map.
  - intros [ld p] Hin. apply in_map_iff in Hin.
    destruct Hin as (ld' & [= <- <-] & _). reflexivity.
Qed.

(** The counts rank [i] is announced are the sizes of what it is sent. *)
Lemma recv_counts_lengths (partitions : list (list (list Z))) (i : nat) :
  map (fun row => nth i row 0) (map send_counts_of partitions)
  = map (@length Z) (map (fun parts => nth i parts []) partitions).
Proof. rewrite !map_map. apply map_ext. intros parts. apply send_count_nth. Qed.

Lemma recv_total (partitions : list (list (list Z))) (i : nat) :
  sum_counts (map (fun row => nth i row 0) (map send_counts_of partitions))
  = length (shard_of partitions i).
Proof. rewrite recv_counts_lengths. apply sum_counts_lengths. Qed.

(** When sampling succeeds on every rank the run issues the four
    collectives and rank [i] returns the sorted union of everybody's
    bucket [i]. *)
Lemma parallel_sample_sort_closed (world local_samples : list (list Z)) :
  1 <= length world ->
  mapM (Sampler (length world)) (map sort world) = Ok local_samples ->
  parallel_sample_sort world =
  (sort_collectives,
   Ok (map (fun i =>
              sort (shard_of
                      (partitions_of world
                         (select_pivots (length world) (concat local_samples)))
                      i))
           (seq 0 (length world)))).
Proof.
  intros Hsize Hsamp.
  assert (Hlen : length local_samples = length world)
    by (rewrite (mapM_length _ _ _ Hsamp); apply length_map).
  unfold parallel_sample_sort. cbv zeta.
  rewrite Hsamp, bind_lift_ok.
  unfold Gather. rewrite bind_issue.
  unfold bcast. rewrite bind_issue.
  rewrite root_pivots by assumption.
  rewrite (length_map _ (seq 0 (length world))), length_seq.
  rewrite partitions_at_all by (symmetry; apply length_map).
  rewrite bind_lift_ok.
  unfold Alltoall. rewrite bind_issue.
  unfold Alltoallv. rewrite bind_issue.
  unfold ret. cbv iota beta.
  set (pivots := select_pivots (length world) (concat local_samples)).
  fold (partitions_of world pivots).
  set (partitions := partitions_of world pivots).
  assert (Hplen : length partitions = length world)
    by (unfold partitions, partitions_of; now rewrite !length_map).
  assert (Hparts : Forall (fun parts => length parts = length world)
                          partitions).
  { apply Forall_forall. intros parts Hin.
    unfold partitions, partitions_of in Hin.
    apply in_map_iff in Hin. destruct Hin as (ld & <- & _).
    rewrite Partitioner_length. unfold pivots.
    rewrite select_pivots_length; [lia | lia |].
    apply (gathered_samples_length _ (map sort world));
      [lia | apply length_map | exact Hsamp]. }
  rewrite !length_map, Hplen.
  unfold sort_collectives. do 2 f_equal.
  rewrite map_map. apply map_ext_in. intros i Hi. apply in_seq in Hi.
  f_equal.
  rewrite (nth_map_lt (fun rc => empty (sum_counts rc)) _ i [] [])
    by (rewrite length_map, length_seq; lia).
  rewrite (nth_map_lt displs _ i [] [])
    by (rewrite length_map, length_seq; lia).
  rewrite nth_map_seq by lia.
  apply Alltoallv_recv_shard.
  - eapply Forall_impl; [|exact Hparts]. simpl. intros parts ->. lia.
  - unfold empty. rewrite repeat_length. apply recv_total.
Qed.

End PipelineFacts.

(** ** Order and content of the shards *)

Section ShardFacts.
Import Numpy.
Local Open Scope nat_scope.

Lemma concat_map_app {A B} (f g : B -> list A) (l : list B) :
  Permutation (concat (map (fun i => f i ++ g i) l))
              (concat (map f l) ++ concat (map g l)).
Proof.
  induction l as [|b l IH]; [reflexivity|].
  cbn [map concat]. rewrite IH, <- !app_assoc.
  apply Permutation_app_head.
  rewrite !app_assoc. apply Permutation_app_tail, Permutation_app_comm.
Qed.

Lemma concat_map_nil {A B} (l : list B) :
  concat (map (fun _ => @nil A) l) = [].
Proof. induction l as [|b l IH]; [reflexivity | exact IH]. Qed.

Lemma Permutation_concat_map {A B} (f g : B -> list A) (l : list B) :
  (forall b, Permutation (f b) (g b)) ->
  Permutation (concat (map f l)) (concat (map g l)).
Proof.
  intros Hfg. induction l as [|b l IH]; [reflexivity|].
  cbn [map concat]. now apply Permutation_app.
Qed.

(** Reading a matrix of buckets by columns or by rows gives the same
    elements. *)
Lemma shards_transpose (rows : list (list (list Z))) (n : nat) :
  Forall (fun r => length r = n) rows ->
  Permutation (concat (map (shard_of rows) (seq 0 n)))
              (concat (map (@concat Z) rows)).
Proof.
  induction 1 as [|r rows Hr _ IH].
  - unfold shard_of. cbn [map concat]. now rewrite concat_map_nil.
  - rewrite (map_ext (shard_of (r :: rows))
                     (fun i => nth i r [] ++ shard_of rows i))
      by reflexivity.
    rewrite concat_map_app, IH. cbn [map concat].
    apply Permutation_app_tail.
    rewrite <- Hr, map_nth_seq. reflexivity.
Qed.

Lemma partitions_concat (world : list (list Z)) (pivots : list Z) :
  StronglySorted Z.le pivots ->
  map (@concat Z) (partitions_of world pivots) = map sort world.
Proof.
  intros Hp. unfold partitions_of. rewrite !map_map.
  apply map_ext. intros w.
  apply Partitioner_concat; [apply sort_sorted | exact Hp].
Qed.

Lemma partitions_uniform (world : list (list Z)) (pivots : list Z) :
  Forall (fun parts => length parts = S (length pivots))
         (partitions_of world pivots).
Proof.
  apply Forall_forall. intros parts Hin. unfold partitions_of in Hin.
  apply in_map_iff in Hin. destruct Hin as (ld & <- & _).
  apply Partitioner_length.
Qed.

(** The shards together hold the input, nothing more and nothing less. *)
Lemma shards_perm (world : list (list Z)) (pivots : list Z) :
  StronglySorted Z.le pivots ->
  Permutation
    (concat (map (fun i => sort (shard_of (partitions_of world pivots) i))
                 (seq 0 (S (length pivots)))))
    (concat world).
Proof.
  intros Hp.
  rewrite (Permutation_concat_map _ (shard_of (partitions_of world pivots)))
    by (intros i; apply sort_perm).
  rewrite shards_transpose by apply partitions_uniform.
  rewrite partitions_concat by assumption.
  rewrite <- (map_id world) at 2.
  apply Permutation_concat_map. intros w. apply sort_perm.
Qed.

Lemma in_shard_bucket (world : list (list Z)) (pivots : list Z)
    (i : nat) (x : Z) :
  StronglySorted Z.le pivots -> i <= length pivots ->
  In x (shard_of (partitions_of world pivots) i) ->
  in_bucket pivots i x = true.
Proof.
  intros Hp Hi Hin. unfold shard_of, partitions_of in Hin.
  apply in_concat in Hin. destruct Hin as (bucket & Hb & Hx).
  rewrite !map_map in Hb. apply in_map_iff in Hb.
  destruct Hb as (w & <- & _).
  rewrite Partitioner_nth in Hx; [| apply sort_sorted | exact Hp | exact Hi].
  now apply filter_In in Hx.
Qed.

(** Values of an earlier bucket never exceed values of a later one. *)
Lemma in_bucket_order (pivots : list Z) (i j : nat) (x y : Z) :
  StronglySorted Z.le pivots -> i < j <= length pivots ->
  in_bucket pivots i x = true -> in_bucket pivots j y = true ->
  (x <= y)%Z.
Proof.
  intros Hp Hij Hx Hy. unfold in_bucket in *.
  apply andb_true_iff in Hx. destruct Hx as [_ Hx].
  apply andb_true_iff in Hy. destruct Hy as [Hy _].
  destruct (Nat.leb_spec (length pivots) i); [lia|].
  destruct (Nat.eqb_spec j 0); [lia|].
  cbn [orb] in Hx, Hy.
  apply Z.leb_le in Hx. apply Z.ltb_lt in Hy.
  pose proof (StronglySorted_nth pivots Hp i (j - 1)). lia.
Qed.

Lemma StronglySorted_app (a b : list Z) :
  StronglySorted Z.le a -> StronglySorted Z.le b ->
  (forall x y, In x a -> In y b -> (x <= y)%Z) ->
  StronglySorted Z.le (a ++ b).
Proof.
  induction 1 as [|x a Ha IH Hall]; intros Hb Hab; [exact Hb|].
  cbn [app]. constructor.
  - apply IH; [exact Hb|]. intros u v Hu. apply Hab. now right.
  - apply Forall_app. split; [exact Hall|].
    apply Forall_forall. intros y Hy. apply Hab; [now left | exact Hy].
Qed.

Lemma StronglySorted_concat (ls : list (list Z)) :
  Forall (StronglySorted Z.le) ls ->
  StronglySorted (fun a b => forall x y, In x a -> In y b -> (x <= y)%Z) ls ->
  StronglySorted Z.le (concat ls).
Proof.
  intros Hall Hord. induction Hord as [|a ls Hls IH Ha]; [constructor|].
  inversion Hall as [|? ? Hsa Hsls]; subst.
  cbn [concat]. apply StronglySorted_app; [exact Hsa | now apply IH|].
  intros x y Hx Hy. apply in_concat in Hy. destruct Hy as (b & Hb & Hy).
  rewrite Forall_forall in Ha. exact (Ha b Hb x y Hx Hy).
Qed.

(** The rank-ordered concatenation of the shards is ascending. *)
Lemma shards_sorted (world : list (list Z)) (pivots : list Z) :
  StronglySorted Z.le pivots ->
  StronglySorted Z.le
    (concat (map (fun i => sort (shard_of (partitions_of world pivots) i))
                 (seq 0 (S (length pivots))))).
Proof.
  intros Hp. apply StronglySorted_concat.
  - apply Forall_forall. intros shard Hin. apply in_map_iff in Hin.
    destruct Hin as (i & <- & _). apply sort_sorted.
  - apply StronglySorted_map_seq. intros i j Hij Hj x y Hx Hy.
    apply (Permutation_in _ (sort_perm _)) in Hx, Hy.
    apply (in_bucket_order pivots i j); [exact Hp | lia | |].
    + apply (in_shard_bucket world); [exact Hp | lia | exact Hx].
    + apply (in_shard_bucket world); [exact Hp | lia | exact Hy].
Qed.

End ShardFacts.

(** ** The distribution of the input *)

Section DistributeFacts.
Import Numpy.
Local Open Scope nat_scope.

Lemma firstn_add {A} (a b : nat) (l : list A) :
  firstn (a + b) l = firstn a l ++ firstn b (skipn a l).
Proof.
  revert l. induction a as [|a IH]; intros l; [reflexivity|].
  destruct l as [|x l]; [now rewrite skipn_nil, !firstn_nil|].
  cbn [Nat.add firstn skipn app]. now rewrite IH.
Qed.

Lemma sum_counts_firstn_succ (l : list nat) (m : nat) :
  m < length l ->
  sum_counts (firstn (S m) l) = sum_counts (firstn m l) + nth m l 0.
Proof.
  intros Hm. rewrite (firstn_succ_nth l m 0), sum_counts_app by assumption.
  simpl. lia.
Qed.

Lemma sum_counts_firstn_le (l : list nat) (m : nat) :
  sum_counts (firstn m l) <= sum_counts l.
Proof.
  rewrite <- (firstn_skipn m l) at 2. rewrite sum_counts_app. lia.
Qed.

Lemma local_sizes_length (N size : nat) :
  length (local_sizes N size) = size.
Proof. unfold local_sizes. now rewrite length_map, length_seq. Qed.

Lemma local_sizes_nth (N size r : nat) :
  r < size ->
  nth r (local_sizes N size) 0 =
  if r <? N mod size then N / size + 1 else N / size.
Proof. intros Hr. unfold local_sizes. now rewrite nth_map_seq. Qed.

Lemma sizes_prefix_sum (q r n : nat) :
  sum_counts (map (fun i => if i <? r then q + 1 else q) (seq 0 n))
  = n * q + Nat.min n r.
Proof.
  induction n as [|n IH]; [reflexivity|].
  rewrite seq_S, map_app, sum_counts_app, IH. cbn [map Nat.add].
  destruct (Nat.ltb_spec n r); unfold sum_counts; cbn [fold_right]; lia.
Qed.

(** The chunk sizes add up to the size of the input. *)
Lemma local_sizes_sum (N size : nat) :
  1 <= size -> sum_counts (local_sizes N size) = N.
Proof.
  intros Hsize. unfold local_sizes. rewrite sizes_prefix_sum.
  pose proof (Nat.mod_upper_bound N size ltac:(lia)).
  pose proof (Nat.div_mod_eq N size). lia.
Qed.

Lemma Scatterv_prefix (data : list Z) (sizes : list nat) :
  forall m, m <= length sizes ->
    concat (map (fun r =>
                   slice (nth r (displs sizes) 0)
                         (nth r (displs sizes) 0 + nth r sizes 0) data)
                (seq 0 m))
    = firstn (sum_counts (firstn m sizes)) data.
Proof.
  induction m as [|m IH]; intros Hm; [reflexivity|].
  rewrite seq_S, map_app, concat_app, IH by lia.
  cbn [map concat Nat.add]. rewrite app_nil_r.
  rewrite displs_nth, sum_counts_firstn_succ, firstn_add by lia.
  unfold slice. do 2 f_equal. lia.
Qed.

Lemma distribute_length (size : nat) (data : list Z) :
  length (distribute size data) = size.
Proof.
  unfold distribute, Scatterv.
  now rewrite length_map, length_seq, local_sizes_length.
Qed.

(** The chunks are consecutive pieces of the input and cover it. *)
Lemma distribute_concat (size : nat) (data : list Z) :
  1 <= size -> concat (distribute size data) = data.
Proof.
  intros Hsize. unfold distribute, Scatterv.
  rewrite Scatterv_prefix by lia.
  rewrite firstn_all, local_sizes_sum by assumption.
  apply firstn_all.
Qed.

(** With at most one rank per element no rank gets an empty chunk. *)
Lemma distribute_nonempty (size : nat) (data : list Z) :
  1 <= size <= length data ->
  Forall (fun chunk => chunk <> []) (distribute size data).
Proof.
  intros Hsize. apply Forall_forall. intros chunk Hin.
  unfold distribute, Scatterv in Hin. apply in_map_iff in Hin.
  destruct Hin as (r & <- & Hr). apply in_seq in Hr.
  rewrite local_sizes_length in Hr.
  set (sizes := local_sizes (length data) size) in *.
  assert (Hcount : 1 <= nth r sizes 0).
  { unfold sizes. rewrite local_sizes_nth by lia.
    pose proof (Nat.div_str_pos (length data) size ltac:(lia)).
    destruct (r <? length data mod size); lia. }
  assert (Hend : sum_counts (firstn r sizes) + nth r sizes 0 <= length data).
  { rewrite <- sum_counts_firstn_succ
      by (unfold sizes; rewrite local_sizes_length; lia).
    pose proof (local_sizes_sum (length data) size ltac:(lia)) as Hsum.
    pose proof (sum_counts_firstn_le sizes (S r)). fold sizes in Hsum. lia. }
  rewrite displs_nth by (unfold sizes; rewrite local_sizes_length; lia).
  intros Hnil. apply (f_equal (@length Z)) in Hnil.
  unfold slice in Hnil. rewrite length_firstn, length_skipn in Hnil.
  simpl in Hnil. lia.
Qed.

Lemma Sampler_all_nonempty (world : list (list Z)) :
  1 <= length world -> Forall (fun chunk => chunk <> []) world ->
  exists local_samples,
    mapM (Sampler (length world)) (map sort world) = Ok local_samples.
Proof.
  intros Hsize Hne.
  exists (map (fun ld =>
                 map (fun idx => nth (Z.to_nat idx) ld 0%Z)
                     (sample_indices (length world) (length ld)))
              (map sort world)).
  apply mapM_ok. intros ld Hin.
  apply in_map_iff in Hin. destruct Hin as (w & <- & Hw).
  apply Sampler_nonempty; [exact Hsize|].
  rewrite Forall_forall in Hne. specialize (Hne w Hw).
  intros Hnil. apply Hne. apply length_zero_iff_nil.
  now rewrite <- sort_length, Hnil.
Qed.

End DistributeFacts.

(** ** Correctness of the sort on a world *)

Section WorldFacts.
Import Numpy.
Local Open Scope nat_scope.

Lemma Sorted_le_strong (l : list Z) :
  Sorted Z.le l -> StronglySorted Z.le l.
Proof. apply Sorted_StronglySorted. intros x y z. apply Z.le_trans. Qed.

(** Whenever sampling succeeds on every rank, the run ends normally after
    the four collectives; the shards are ordered by rank, each is sorted,
    and together they are the input. *)
Lemma sample_sort_world (world local_samples : list (list Z)) :
  1 <= length world ->
  mapM (Sampler (length world)) (map sort world) = Ok local_samples ->
  exists shards,
    parallel_sample_sort world = (sort_collectives, Ok shards) /\
    length shards = length world /\
    Permutation (concat shards) (concat world) /\
    StronglySorted Z.le (concat shards) /\
    (forall i j x y, i < j < length world ->
       In x (nth i shards []) -> In y (nth j shards []) -> (x <= y)%Z).
Proof.
  intros Hsize Hsamp.
  set (pivots := select_pivots (length world) (concat local_samples)).
  assert (Hp : StronglySorted Z.le pivots)
    by (apply select_pivots_sorted; exact Hsize).
  assert (Hplen : S (length pivots) = length world).
  { unfold pivots. rewrite select_pivots_length; [lia | lia |].
    apply (gathered_samples_length _ (map sort world));
      [lia | apply length_map | exact Hsamp]. }
  eexists. split;
    [exact (parallel_sample_sort_closed world local_samples Hsize Hsamp)|].
  fold pivots. rewrite <- Hplen. repeat split.
  - now rewrite length_map, length_seq.
  - now apply shards_perm.
  - now apply shards_sorted.
  - intros i j x y Hij.
    rewrite !(nth_map_seq (fun i => sort (shard_of (partitions_of world pivots) i)))
      by lia.
    intros Hx Hy.
    apply (Permutation_in _ (sort_perm _)) in Hx, Hy.
    apply (in_bucket_order pivots i j); [exact Hp | lia | |].
    + apply (in_shard_bucket world); [exact Hp | lia | exact Hx].
    + apply (in_shard_bucket world); [exact Hp | lia | exact Hy].
Qed.

Lemma Sampler_single (local_data : list Z) : Sampler 1 local_data = Ok [].
Proof.
  unfold Sampler, take. now rewrite sample_indices_eq by lia.
Qed.

Lemma concat_singletons {A} (l : list A) :
  concat (map (fun a => [a]) l) = l.
Proof. induction l as [|a l IH]; simpl; [|rewrite IH]; reflexivity. Qed.

End WorldFacts.

(** ** The value ranges of the buckets, case by case *)

Section BucketRanges.
Local Open Scope nat_scope.

Lemma in_bucket_first (pivots : list Z) (x : Z) :
  1 <= length pivots ->
  in_bucket pivots 0 x = (x <=? nth 0 pivots 0)%Z.
Proof.
  intros Hlen. unfold in_bucket.
  destruct (Nat.leb_spec (length pivots) 0); [lia | reflexivity].
Qed.

Lemma in_bucket_inner (pivots : list Z) (k : nat) (x : Z) :
  1 <= k < length pivots ->
  in_bucket pivots k x
  = ((nth (k - 1) pivots 0 <? x)%Z && (x <=? nth k pivots 0)%Z)%bool.
Proof.
  intros Hk. unfold in_bucket.
  destruct (Nat.eqb_spec k 0); [lia|].
  destruct (Nat.leb_spec (length pivots) k); [lia | reflexivity].
Qed.

Lemma in_bucket_last (pivots : list Z) (x : Z) :
  1 <= length pivots ->
  in_bucket pivots (length pivots) x
  = (nth (length pivots - 1) pivots 0 <? x)%Z.
Proof.
  intros Hlen. unfold in_bucket.
  destruct (Nat.eqb_spec (length pivots) 0); [lia|].
  rewrite Nat.leb_refl. cbn [orb]. apply andb_true_r.
Qed.

End BucketRanges.

(** * The claims *)

(** C1.  For every input array [data] of [N] values and every group size
    [size] with [1 <= size <= N], the sort run on the chunks [main] scatters
    ends normally with one shard per rank; the shards concatenated in rank
    order are a permutation of the input and ascending, and every value of a
    lower rank's shard is at most every value of a higher rank's shard. *)
Theorem parallel_sample_sort_sorts_input (data : list Z) (size : nat) :
  1 <= size <= length data ->
  exists shards,
    outcome (parallel_sample_sort (distribute size data)) = Ok shards /\
    length shards = size /\
    Permutation (concat shards) data /\
    Sorted Z.le (concat shards) /\
    (forall i j x y, i < j < size ->
       In x (nth i shards []) -> In y (nth j shards []) -> (x <= y)%Z).
Proof.
  intros Hsize.
  pose proof (distribute_length size data) as Hlen.
  destruct (Sampler_all_nonempty (distribute size data)) as (samples & Hs).
  - rewrite Hlen. lia.
  - now apply distribute_nonempty.
  - destruct (sample_sort_world (distribute size data) samples)
      as (shards & Hrun & Hl & Hperm & Hsorted & Hord);
      [rewrite Hlen; lia | exact Hs |].
    exists shards. rewrite Hrun. rewrite Hlen in Hl, Hord.
    rewrite distribute_concat in Hperm by lia.
    repeat split; try assumption.
    now apply StronglySorted_Sorted.
Qed.

Lemma parallel_sample_sort_sorts_input_witness :
  1 <= 3 <= length [5;3;8;1;9;2;7;4;6;0;11;10]%Z /\
  exists shards,
    outcome (parallel_sample_sort
               (distribute 3 [5;3;8;1;9;2;7;4;6;0;11;10]%Z)) = Ok shards /\
    length shards = 3 /\
    Permutation (concat shards) [5;3;8;1;9;2;7;4;6;0;11;10]%Z /\
    Sorted Z.le (concat shards) /\
    (forall i j x y, i < j < 3 ->
       In x (nth i shards []) -> In y (nth j shards []) -> (x <= y)%Z).
Proof.
  split; [simpl; lia|].
  apply (parallel_sample_sort_sorts_input
           [5;3;8;1;9;2;7;4;6;0;11;10]%Z 3).
  simpl. lia.
Defined.

(** C2.  For every sorted [local_data] and every non-decreasing [pivots] of
    [P - 1] values the Partitioner returns [P] buckets whose concatenation is
    [local_data]; bucket 0 is exactly the elements [<= pivots[0]], an interior
    bucket [k] exactly those in [(pivots[k-1], pivots[k]]], the last bucket
    exactly those [> pivots[P-2]]. *)
Theorem Partitioner_buckets_by_range (local_data pivots : list Z) :
  Sorted Z.le local_data -> Sorted Z.le pivots ->
  let partitions := Partitioner local_data pivots in
  let P := S (length pivots) in
  length partitions = P /\
  concat partitions = local_data /\
  (2 <= P ->
   nth 0 partitions [] =
   filter (fun x => (x <=? nth 0 pivots 0)%Z) local_data) /\
  (forall k, 1 <= k < P - 1 ->
   nth k partitions [] =
   filter (fun x => (nth (k - 1) pivots 0 <? x)%Z && (x <=? nth k pivots 0)%Z)
          local_data) /\
  (2 <= P ->
   nth (P - 1) partitions [] =
   filter (fun x => (nth (P - 2) pivots 0 <? x)%Z) local_data).
Proof.
  intros Hld Hp. apply Sorted_le_strong in Hld, Hp.
  cbv zeta. repeat split.
  - apply Partitioner_length.
  - now apply Partitioner_concat.
  - intros HP. rewrite Partitioner_nth by (assumption || lia).
    apply filter_ext. intros x. apply in_bucket_first. lia.
  - intros k Hk. rewrite Partitioner_nth by (assumption || lia).
    apply filter_ext. intros x. apply in_bucket_inner. lia.
  - intros HP.
    replace (S (length pivots) - 1) with (length pivots) by lia.
    replace (S (length pivots) - 2) with (length pivots - 1) by lia.
    rewrite Partitioner_nth by (assumption || lia).
    apply filter_ext. intros x. apply in_bucket_last. lia.
Qed.

Lemma Partitioner_buckets_by_range_witness :
  Sorted Z.le [1;2;2;3;5;8]%Z /\ Sorted Z.le [2;2;6]%Z /\
  let partitions := Partitioner [1;2;2;3;5;8]%Z [2;2;6]%Z in
  let P := S (length [2;2;6]%Z) in
  length partitions = P /\
  concat partitions = [1;2;2;3;5;8]%Z /\
  (2 <= P ->
   nth 0 partitions [] =
   filter (fun x => (x <=? nth 0 [2;2;6] 0)%Z) [1;2;2;3;5;8]%Z) /\
  (forall k, 1 <= k < P - 1 ->
   nth k partitions [] =
   filter (fun x => (nth (k - 1) [2;2;6] 0 <? x)%Z && (x <=? nth k [2;2;6] 0)%Z)
          [1;2;2;3;5;8]%Z) /\
  (2 <= P ->
   nth (P - 1) partitions [] =
   filter (fun x => (nth (P - 2) [2;2;6] 0 <? x)%Z) [1;2;2;3;5;8]%Z).
Proof.
  assert (Hld : Sorted Z.le [1;2;2;3;5;8]%Z) by (repeat constructor; lia).
  assert (Hp : Sorted Z.le [2;2;6]%Z) by (repeat constructor; lia).
  split; [exact Hld|]. split; [exact Hp|].
  exact (Partitioner_buckets_by_range [1;2;2;3;5;8]%Z [2;2;6]%Z Hld Hp).
Defined.

(** C3.  Given the gathered sample set of size [P * (P - 1)], the Pivot
    Selector on the root sorts it ascending and keeps the elements at
    positions [0, P, 2P, ...]: exactly [P - 1] pivots, pivot [k] being element
    [k * P] of the sorted samples. *)
Theorem select_pivots_every_Pth (size : nat) (all_samples : list Z) :
  1 <= size -> length all_samples = size * (size - 1) ->
  let sorted := Numpy.sort all_samples in
  let pivots := select_pivots size all_samples in
  pivots_at 0 size (Some all_samples) = Some pivots /\
  Sorted Z.le sorted /\
  Permutation sorted all_samples /\
  length pivots = size - 1 /\
  (forall k, k < size - 1 -> nth k pivots 0%Z = nth (k * size) sorted 0%Z).
Proof.
  intros Hsize Hlen. cbv zeta. repeat split.
  - apply StronglySorted_Sorted, sort_sorted.
  - apply sort_perm.
  - now apply select_pivots_length.
  - intros k Hk. unfold select_pivots. apply stride_nth.
    now rewrite sort_length, Hlen, pivot_count.
Qed.

Lemma select_pivots_every_Pth_witness :
  1 <= 3 /\ length [4;1;5;0;2;3]%Z = 3 * (3 - 1) /\
  let sorted := Numpy.sort [4;1;5;0;2;3]%Z in
  let pivots := select_pivots 3 [4;1;5;0;2;3]%Z in
  pivots_at 0 3 (Some [4;1;5;0;2;3]%Z) = Some pivots /\
  Sorted Z.le sorted /\
  Permutation sorted [4;1;5;0;2;3]%Z /\
  length pivots = 3 - 1 /\
  (forall k, k < 3 - 1 -> nth k pivots 0%Z = nth (k * 3) sorted 0%Z).
Proof.
  split; [lia|]. split; [reflexivity|].
  apply (select_pivots_every_Pth 3 [4;1;5;0;2;3]%Z); [lia | reflexivity].
Defined.

(** C4, as the code has it.  The program defines no InsufficientDataError and
    never tests the chunk length.  For a buffer shorter than [P - 1] (with
    [P >= 2]) the Sampler fails only on the empty buffer, and then with the
    IndexError of the fancy indexing; on a non-empty one it returns [P - 1]
    samples. *)
Theorem Sampler_short_buffer (size : nat) (local_data : list Z) :
  2 <= size -> length local_data < size - 1 ->
  (local_data = [] -> Sampler size local_data = Err IndexError) /\
  (local_data <> [] ->
   exists samples,
     Sampler size local_data = Ok samples /\ length samples = size - 1).
Proof.
  intros Hsize _. split.
  - intros ->. now apply Sampler_empty.
  - intros Hne. eexists. split.
    + apply Sampler_nonempty; [lia | exact Hne].
    + rewrite length_map. apply sample_indices_length. lia.
Qed.

Lemma Sampler_short_buffer_witness :
  2 <= 4 /\ length [7%Z] < 4 - 1 /\
  ([7%Z] = [] -> Sampler 4 [7%Z] = Err IndexError) /\
  ([7%Z] <> [] ->
   exists samples, Sampler 4 [7%Z] = Ok samples /\ length samples = 4 - 1).
Proof.
  split; [lia|]. split; [simpl; lia|].
  apply (Sampler_short_buffer 4 [7%Z]); [lia | simpl; lia].
Defined.

(** C4 as stated fails: with [P = 4] the one-element buffer is shorter than
    [P - 1 = 3], yet sampling returns three samples and no error. *)
Lemma Sampler_short_buffer_no_error :
  Sampler 4 [7%Z] = Ok [7;7;7]%Z /\ forall e, Sampler 4 [7%Z] <> Err e.
Proof. split; [reflexivity | discriminate]. Qed.






(** C6.  When every rank has cut [P] buckets, the scalar all-to-all of the
    bucket sizes gives every rank a receive-count vector of length [P], and
    entry [j] on rank [i] is entry [i] of rank [j]'s send counts, the size of
    the bucket rank [j] holds for rank [i]: the receive-count matrix is the
    transpose of the send-count matrix. *)
Theorem Alltoall_counts_transposed (partitions : list (list (list Z))) :
  Forall (fun parts => length parts = length partitions) partitions ->
  let size := length partitions in
  let send_counts := map send_counts_of partitions in
  exists recv_counts,
    MPI.Alltoall send_counts = ([Alltoall_call], Ok recv_counts) /\
    length recv_counts = size /\
    Forall (fun row => length row = size) send_counts /\
    Forall (fun row => length row = size) recv_counts /\
    (forall i j, i < size -> j < size ->
       nth j (nth i recv_counts []) 0 = nth i (nth j send_counts []) 0 /\
       nth j (nth i recv_counts []) 0
       = length (nth i (nth j partitions []) [])).
Proof.
  intros Hparts. cbv zeta. eexists. split; [reflexivity|].
  rewrite !length_map, length_seq.
  split; [reflexivity|]. split; [|split].
  - apply Forall_forall. intros row Hrow. apply in_map_iff in Hrow.
    destruct Hrow as (parts & <- & Hin). unfold send_counts_of.
    rewrite length_map. rewrite Forall_forall in Hparts. now apply Hparts.
  - apply Forall_forall. intros row Hrow. apply in_map_iff in Hrow.
    destruct Hrow as (i & <- & _). now rewrite !length_map.
  - intros i j Hi Hj. rewrite nth_map_seq by assumption.
    rewrite (nth_map_lt (fun row => nth i row 0) _ j 0 [])
      by now rewrite length_map.
    split; [reflexivity|].
    rewrite (nth_map_lt send_counts_of partitions j [] []) by assumption.
    apply send_count_nth.
Qed.

Lemma Alltoall_counts_transposed_witness :
  Forall (fun parts => length parts = 2) [[[1;2]; [3]]; [[]; [4;5;6]]]%Z /\
  exists recv_counts,
    MPI.Alltoall (map send_counts_of [[[1;2]; [3]]; [[]; [4;5;6]]]%Z)
    = ([Alltoall_call], Ok recv_counts) /\
    length recv_counts = 2 /\
    Forall (fun row => length row = 2)
           (map send_counts_of [[[1;2]; [3]]; [[]; [4;5;6]]]%Z) /\
    Forall (fun row => length row = 2) recv_counts /\
    (forall i j, i < 2 -> j < 2 ->
       nth j (nth i recv_counts []) 0
       = nth i (nth j (map send_counts_of [[[1;2]; [3]]; [[]; [4;5;6]]]%Z) []) 0 /\
       nth j (nth i recv_counts []) 0
       = length (nth i (nth j [[[1;2]; [3]]; [[]; [4;5;6]]]%Z []) [])).
Proof.
  assert (H : Forall (fun parts => length parts = 2)
                     [[[1;2]; [3]]; [[]; [4;5;6]]]%Z)
    by (repeat constructor).
  split; [exact H|].
  exact (Alltoall_counts_transposed [[[1;2]; [3]]; [[]; [4;5;6]]]%Z H).
Defined.

(** C7, as the code has it.  With a group of one the sort returns, on the
    only rank, the local ascending sort of the whole input; it still issues
    its four collectives, Gather, bcast, Alltoall and Alltoallv, each over the
    group of one. *)
Theorem parallel_sample_sort_single_rank (data : list Z) :
  parallel_sample_sort [data] = (sort_collectives, Ok [Numpy.sort data]).
Proof.
  rewrite (parallel_sample_sort_closed [data] [[]]).
  - cbn [length seq map concat]. do 3 f_equal.
    change (select_pivots 1 []) with (@nil Z).
    unfold partitions_of, shard_of. cbn [map concat nth].
    rewrite Partitioner_buckets. cbn [buckets nth].
    unfold Numpy.slice_from. cbn [skipn]. rewrite app_nil_r.
    apply sort_sorted_id, sort_sorted.
  - simpl. lia.
  - cbn [length map mapM]. now rewrite Sampler_single.
Qed.

(** C7 as stated fails: on a group of one the run of the sort still issues
    collectives. *)
Lemma single_rank_issues_collectives :
  outcome (parallel_sample_sort [[3;1;2]%Z]) = Ok [Numpy.sort [3;1;2]%Z] /\
  issued (parallel_sample_sort [[3;1;2]%Z])
  = [Gather_call; bcast_call; Alltoall_call; Alltoallv_call] /\
  issued (parallel_sample_sort [[3;1;2]%Z]) <> [].
Proof. repeat split. discriminate. Qed.

(** C8.  For a buffer of length [n] with [1 <= n < P - 1] the Sampler raises
    nothing and returns exactly [P - 1] samples; some sampled position, and
    so some sample value, occurs more than once. *)
Theorem Sampler_repeats_on_short_buffer (size : nat) (local_data : list Z) :
  1 <= length local_data < size - 1 ->
  exists samples,
    Sampler size local_data = Ok samples /\
    length samples = size - 1 /\
    ~ NoDup (sample_indices size (length local_data)) /\
    ~ NoDup samples.
Proof.
  intros Hn.
  assert (Hne : local_data <> [])
    by (destruct local_data; [simpl in Hn; lia | discriminate]).
  assert (Hrep : ~ NoDup (sample_indices size (length local_data)))
    by (apply sample_indices_repeat; lia).
  eexists. split; [apply Sampler_nonempty; [lia | exact Hne]|].
  split; [|split].
  - rewrite length_map. apply sample_indices_length. lia.
  - exact Hrep.
  - now apply not_NoDup_map.
Qed.

Lemma Sampler_repeats_on_short_buffer_witness :
  1 <= length [7;9]%Z < 5 - 1 /\
  exists samples,
    Sampler 5 [7;9]%Z = Ok samples /\
    length samples = 5 - 1 /\
    ~ NoDup (sample_indices 5 (length [7;9]%Z)) /\
    ~ NoDup samples.
Proof.
  split; [simpl; lia|].
  apply (Sampler_repeats_on_short_buffer 5 [7;9]%Z). simpl. lia.
Defined.

(** C9.  With [P >= 2] the first pivot is element 0 of the sorted gathered
    samples, their minimum, because the stride-[P] selection starts at
    position 0; so bucket 0 of every sorted buffer holds only values that are
    at most every gathered sample. *)
Theorem first_pivot_is_min_sample (size : nat) (all_samples : list Z) :
  2 <= size -> length all_samples = size * (size - 1) ->
  let pivots := select_pivots size all_samples in
  nth 0 pivots 0%Z = nth 0 (Numpy.sort all_samples) 0%Z /\
  In (nth 0 pivots 0%Z) all_samples /\
  Forall (fun s => (nth 0 pivots 0 <= s)%Z) all_samples /\
  (forall local_data, Sorted Z.le local_data ->
     Forall (fun x => Forall (fun s => (x <= s)%Z) all_samples)
            (nth 0 (Partitioner local_data pivots) [])).
Proof.
  intros Hsize Hlen. cbv zeta.
  assert (Hfirst : nth 0 (select_pivots size all_samples) 0%Z
                   = nth 0 (Numpy.sort all_samples) 0%Z).
  { unfold select_pivots.
    rewrite stride_nth; [reflexivity|].
    rewrite sort_length, Hlen, pivot_count; lia. }
  assert (Hmin : Forall (fun s => (nth 0 (select_pivots size all_samples) 0 <= s)%Z)
                        all_samples).
  { apply Forall_forall. intros s Hs. rewrite Hfirst.
    apply StronglySorted_hd_min; [apply sort_sorted|].
    apply (Permutation_in _ (Permutation_sym (sort_perm all_samples)) Hs). }
  split; [exact Hfirst|]. split; [|split; [exact Hmin|]].
  - rewrite Hfirst.
    apply (Permutation_in _ (sort_perm all_samples)).
    apply nth_In. rewrite sort_length, Hlen. nia.
  - intros local_data Hld. apply Sorted_le_strong in Hld.
    assert (Hplen : length (select_pivots size all_samples) = size - 1)
      by (apply select_pivots_length; [lia | exact Hlen]).
    rewrite Partitioner_nth;
      [| exact Hld | apply select_pivots_sorted; lia | lia].
    apply Forall_forall. intros x Hx. apply filter_In in Hx.
    destruct Hx as [_ Hx]. rewrite in_bucket_first in Hx by lia.
    apply Z.leb_le in Hx.
    eapply Forall_impl; [|exact Hmin]. simpl. intros s Hs. lia.
Qed.

Lemma first_pivot_is_min_sample_witness :
  2 <= 3 /\ length [4;1;5;0;2;3]%Z = 3 * (3 - 1) /\
  let pivots := select_pivots 3 [4;1;5;0;2;3]%Z in
  nth 0 pivots 0%Z = nth 0 (Numpy.sort [4;1;5;0;2;3]%Z) 0%Z /\
  In (nth 0 pivots 0%Z) [4;1;5;0;2;3]%Z /\
  Forall (fun s => (nth 0 pivots 0 <= s)%Z) [4;1;5;0;2;3]%Z /\
  (forall local_data, Sorted Z.le local_data ->
     Forall (fun x => Forall (fun s => (x <= s)%Z) [4;1;5;0;2;3]%Z)
            (nth 0 (Partitioner local_data pivots) [])).
Proof.
  split; [lia|]. split; [reflexivity|].
  apply (first_pivot_is_min_sample 3 [4;1;5;0;2;3]%Z); [lia | reflexivity].
Defined.

(** C10.  On a group of at least one rank [parallel_sum] ends normally after
    one Gather; rank 0 returns the sum, over all ranks, of the sums of their
    local data, and every other rank returns [None]. *)
Theorem parallel_sum_root_total (world : list (list Z)) :
  1 <= length world ->
  exists returned,
    parallel_sum world = ([Gather_call], Ok returned) /\
    length returned = length world /\
    nth 0 returned None = Some (Numpy.sum (map Numpy.sum world)) /\
    (forall rank, 0 < rank < length world -> nth rank returned None = None).
Proof.
  intros Hsize. eexists. split; [reflexivity|].
  rewrite length_map, length_seq.
  split; [reflexivity|]. split.
  - rewrite nth_map_seq by lia.
    rewrite !length_map, nth_map_seq by lia.
    cbn [Nat.eqb total_sum]. now rewrite concat_singletons.
  - intros rank Hrank. rewrite nth_map_seq by lia.
    unfold total_sum. destruct (Nat.eqb_spec rank 0); [lia | reflexivity].
Qed.

Lemma parallel_sum_root_total_witness :
  1 <= length [[3;1;2]; [5;6]]%Z /\
  exists returned,
    parallel_sum [[3;1;2]; [5;6]]%Z = ([Gather_call], Ok returned) /\
    length returned = length [[3;1;2]; [5;6]]%Z /\
    nth 0 returned None
    = Some (Numpy.sum (map Numpy.sum [[3;1;2]; [5;6]]%Z)) /\
    (forall rank, 0 < rank < length [[3;1;2]; [5;6]]%Z ->
       nth rank returned None = None).
Proof.
  split; [simpl; lia|].
  apply (parallel_sum_root_total [[3;1;2]; [5;6]]%Z). simpl. lia.
Defined.


(** * Further properties of the code *)

(** ** How a run of the sort can end *)

Lemma getitem_error (a : list Z) (i : Z) (e : error) :
  Numpy.getitem a i = Err e -> e = IndexError.
Proof.
  unfold Numpy.getitem.
  destruct (_ && _)%bool; [discriminate|].
  destruct (_ && _)%bool; [discriminate|].
  now intros [= <-].
Qed.

Lemma Sampler_error (size : nat) (local_data : list Z) (e : error) :
  Sampler size local_data = Err e -> e = IndexError.
Proof.
  unfold Sampler, Numpy.take. intros H.
  apply mapM_err_inv in H. destruct H as (i & _ & Hi).
  now apply getitem_error in Hi.
Qed.

Lemma mapM_err_of {A B} (f : A -> result B) (l : list A) (e : error) :
  (forall a e', f a = Err e' -> e' = e) ->
  (exists a, In a l /\ f a = Err e) -> mapM f l = Err e.
Proof.
  intros Hone. induction l as [|a l IH]; intros (x & Hin & Hx).
  - destruct Hin.
  - cbn [mapM]. destruct (f a) as [b|e'] eqn:Ha.
    + destruct Hin as [->|Hin]; [congruence|].
      rewrite IH; [reflexivity|]. now exists x.
    + now rewrite (Hone a e' Ha).
Qed.

Lemma sampling_error_aborts (world : list (list Z)) (e : error) :
  mapM (Sampler (length world)) (map Numpy.sort world) = Err e ->
  parallel_sample_sort world = ([], Err e).
Proof.
  intros H. unfold parallel_sample_sort. cbv zeta.
  now rewrite H, bind_lift_err.
Qed.

Lemma empty_chunk_fails_sampling (world : list (list Z)) :
  2 <= length world -> In [] world ->
  mapM (Sampler (length world)) (map Numpy.sort world) = Err IndexError.
Proof.
  intros Hsize Hin. apply mapM_err_of.
  - intros a e'. apply Sampler_error.
  - exists []. split.
    + change (@nil Z) with (Numpy.sort []). now apply in_map.
    + now apply Sampler_empty.
Qed.



(** X2.  With two ranks or more the sort ends normally exactly when no rank's
    chunk is empty. *)
Theorem sort_succeeds_iff_no_empty_chunk (world : list (list Z)) :
  2 <= length world ->
  ((exists shards, outcome (parallel_sample_sort world) = Ok shards)
   <-> Forall (fun chunk => chunk <> []) world).
Proof.
  intros Hsize. split.
  - intros (shards & Hok). apply Forall_forall. intros chunk Hin ->.
    rewrite (sampling_error_aborts world IndexError) in Hok;
      [discriminate|].
    now apply empty_chunk_fails_sampling.
  - intros Hne.
    destruct (Sampler_all_nonempty world ltac:(lia) Hne) as (samples & Hs).
    destruct (sample_sort_world world samples ltac:(lia) Hs)
      as (shards & Hrun & _).
    exists shards. now rewrite Hrun.
Qed.

Lemma sort_succeeds_iff_no_empty_chunk_witness :
  2 <= length [[3;1]; [2]]%Z /\
  ((exists shards, outcome (parallel_sample_sort [[3;1]; [2]]%Z) = Ok shards)
   <-> Forall (fun chunk => chunk <> []) [[3;1]; [2]]%Z).
Proof.
  assert (H1 : 2 <= length [[3;1]; [2]]%Z) by (simpl; lia).
  split; [exact H1|].
  exact (sort_succeeds_iff_no_empty_chunk [[3;1]; [2]]%Z H1).
Defined.



(** ** The chunks [main] scatters *)

Lemma chunk_end_in_range (size r : nat) (data : list Z) :
  1 <= size -> r < size ->
  let sizes := local_sizes (length data) size in
  Numpy.sum_counts (firstn r sizes) + nth r sizes 0 <= length data.
Proof.
  intros Hsize Hr sizes.
  rewrite <- sum_counts_firstn_succ
    by (unfold sizes; rewrite local_sizes_length; lia).
  pose proof (local_sizes_sum (length data) size Hsize) as Hsum.
  pose proof (sum_counts_firstn_le sizes (S r)). fold sizes in Hsum. lia.
Qed.

Lemma distribute_nth (size r : nat) (data : list Z) :
  r < size ->
  let sizes := local_sizes (length data) size in
  nth r (distribute size data) []
  = Numpy.slice (Numpy.sum_counts (firstn r sizes))
                (Numpy.sum_counts (firstn r sizes) + nth r sizes 0) data.
Proof.
  intros Hr sizes. unfold distribute, Scatterv. fold sizes.
  assert (Hlen : length sizes = size) by apply local_sizes_length.
  rewrite Hlen, nth_map_seq by assumption.
  now rewrite displs_nth by lia.
Qed.

Lemma distribute_chunk_length (size r : nat) (data : list Z) :
  1 <= size -> r < size ->
  length (nth r (distribute size data) [])
  = if r <? length data mod size then length data / size + 1
    else length data / size.
Proof.
  intros Hsize Hr. rewrite distribute_nth by assumption.
  pose proof (chunk_end_in_range size r data Hsize Hr) as Hend.
  cbv zeta in Hend. unfold Numpy.slice.
  rewrite length_firstn, length_skipn, <- local_sizes_nth by assumption.
  lia.
Qed.

(** X4.  The scatter of [main] cuts the input into [size] consecutive chunks
    that together are the input, in order; chunk [r] has [N / size + 1]
    elements for the first [N mod size] ranks and [N / size] for the others. *)
Theorem distribute_covers_input (size : nat) (data : list Z) :
  1 <= size ->
  let N := length data in
  length (distribute size data) = size /\
  concat (distribute size data) = data /\
  (forall r, r < size ->
     length (nth r (distribute size data) [])
     = if r <? N mod size then N / size + 1 else N / size).
Proof.
  intros Hsize. cbv zeta. split; [apply distribute_length|].
  split; [now apply distribute_concat|].
  intros r Hr. now apply distribute_chunk_length.
Qed.

Lemma distribute_covers_input_witness :
  1 <= 3 /\
  let N := length [5;3;8;1;9;2;7]%Z in
  length (distribute 3 [5;3;8;1;9;2;7]%Z) = 3 /\
  concat (distribute 3 [5;3;8;1;9;2;7]%Z) = [5;3;8;1;9;2;7]%Z /\
  (forall r, r < 3 ->
     length (nth r (distribute 3 [5;3;8;1;9;2;7]%Z) [])
     = if r <? N mod 3 then N / 3 + 1 else N / 3).
Proof.
  assert (H : 1 <= 3) by lia.
  split; [exact H|].
  exact (distribute_covers_input 3 [5;3;8;1;9;2;7]%Z H).
Defined.





(** ** The parallel sort against the sequential one *)

Lemma sorted_perm_unique (l1 l2 : list Z) :
  StronglySorted Z.le l1 -> StronglySorted Z.le l2 ->
  Permutation l1 l2 -> l1 = l2.
Proof.
  intros H1. revert l2. induction H1 as [|x l1 Hs1 IH Hx]; intros l2 H2 Hp.
  - symmetry. now apply Permutation_nil.
  - destruct H2 as [|y l2 Hs2 Hy].
    + symmetry in Hp. apply Permutation_nil in Hp. discriminate.
    + assert (x = y).
      { rewrite Forall_forall in Hx, Hy.
        assert (Hyin : In y (x :: l1))
          by (apply (Permutation_in _ (Permutation_sym Hp)); now left).
        assert (Hxin : In x (y :: l2))
          by (apply (Permutation_in _ Hp); now left).
        destruct Hyin as [|Hyin]; [congruence|].
        destruct Hxin as [|Hxin]; [congruence|].
        specialize (Hx y Hyin). specialize (Hy x Hxin). lia. }
      subst y. f_equal. apply IH; [exact Hs2|].
      now apply Permutation_cons_inv in Hp.
Qed.

Lemma sort_canonical (l1 l2 : list Z) :
  Permutation l1 l2 -> Numpy.sort l1 = Numpy.sort l2.
Proof.
  intros Hp. apply sorted_perm_unique; try apply sort_sorted.
  now rewrite !sort_perm.
Qed.

(** X6.  When no chunk is empty the shards, concatenated in rank order, are
    the sequential ascending sort of the concatenated chunks: the parallel
    sort computes what one local sort of the whole input computes. *)
Theorem parallel_sort_is_sequential_sort (world : list (list Z)) :
  1 <= length world -> Forall (fun chunk => chunk <> []) world ->
  exists shards,
    outcome (parallel_sample_sort world) = Ok shards /\
    concat shards = Numpy.sort (concat world).
Proof.
  intros Hsize Hne.
  destruct (Sampler_all_nonempty world Hsize Hne) as (samples & Hs).
  destruct (sample_sort_world world samples Hsize Hs)
    as (shards & Hrun & _ & Hperm & Hsorted & _).
  exists shards. rewrite Hrun. split; [reflexivity|].
  apply sorted_perm_unique; [exact Hsorted | apply sort_sorted|].
  now rewrite sort_perm.
Qed.

Lemma parallel_sort_is_sequential_sort_witness :
  1 <= length [[5;3]; [8;1]; [9;2]]%Z /\
  Forall (fun chunk => chunk <> []) [[5;3]; [8;1]; [9;2]]%Z /\
  exists shards,
    outcome (parallel_sample_sort [[5;3]; [8;1]; [9;2]]%Z) = Ok shards /\
    concat shards = Numpy.sort (concat [[5;3]; [8;1]; [9;2]]%Z).
Proof.
  assert (H1 : 1 <= length [[5;3]; [8;1]; [9;2]]%Z) by (simpl; lia).
  assert (H2 : Forall (fun chunk => chunk <> []) [[5;3]; [8;1]; [9;2]]%Z)
    by (repeat constructor; discriminate).
  split; [exact H1|]. split; [exact H2|].
  exact (parallel_sort_is_sequential_sort [[5;3]; [8;1]; [9;2]]%Z H1 H2).
Defined.

(** X7.  The sort neither loses nor invents elements: whenever it ends
    normally, the shard sizes over all ranks add up to the chunk sizes over
    all ranks. *)
Theorem shard_sizes_add_up (world shards : list (list Z)) :
  1 <= length world ->
  outcome (parallel_sample_sort world) = Ok shards ->
  length shards = length world /\
  Numpy.sum_counts (map (@length Z) shards)
  = Numpy.sum_counts (map (@length Z) world).
Proof.
  intros Hsize Hok.
  destruct (mapM (Sampler (length world)) (map Numpy.sort world))
    as [samples|e] eqn:Hs.
  - destruct (sample_sort_world world samples Hsize Hs)
      as (shards' & Hrun & Hlen & Hperm & _).
    rewrite Hrun in Hok. injection Hok as <-.
    split; [exact Hlen|].
    rewrite !sum_counts_lengths. now apply Permutation_length.
  - rewrite (sampling_error_aborts world e Hs) in Hok. discriminate.
Qed.

Lemma shard_sizes_add_up_witness :
  1 <= length [[5;3;8;1]; [9;2;7;4]; [6;0;11;10]]%Z /\
  outcome (parallel_sample_sort [[5;3;8;1]; [9;2;7;4]; [6;0;11;10]]%Z)
  = Ok [[0;1;2;3]; [4;5;6]; [7;8;9;10;11]]%Z /\
  length [[0;1;2;3]; [4;5;6]; [7;8;9;10;11]]%Z
  = length [[5;3;8;1]; [9;2;7;4]; [6;0;11;10]]%Z /\
  Numpy.sum_counts (map (@length Z) [[0;1;2;3]; [4;5;6]; [7;8;9;10;11]]%Z)
  = Numpy.sum_counts (map (@length Z) [[5;3;8;1]; [9;2;7;4]; [6;0;11;10]]%Z).
Proof.
  assert (H1 : 1 <= length [[5;3;8;1]; [9;2;7;4]; [6;0;11;10]]%Z)
    by (simpl; lia).
  assert (H2 : outcome (parallel_sample_sort
                          [[5;3;8;1]; [9;2;7;4]; [6;0;11;10]]%Z)
               = Ok [[0;1;2;3]; [4;5;6]; [7;8;9;10;11]]%Z)
    by reflexivity.
  split; [exact H1|]. split; [exact H2|].
  exact (shard_sizes_add_up _ _ H1 H2).
Defined.

(** ** What a shard holds *)

Lemma Permutation_filter {A} (p : A -> bool) (l l' : list A) :
  Permutation l l' -> Permutation (filter p l) (filter p l').
Proof.
  induction 1 as [|x l l' _ IH|x y l|l l' l'' _ IH1 _ IH2]; simpl.
  - constructor.
  - destruct (p x); [now constructor | exact IH].
  - destruct (p x), (p y); try reflexivity. apply perm_swap.
  - now transitivity (filter p l').
Qed.

Lemma mapM_In_inv {A B} (f : A -> result B) (l : list A) (bs : list B) (b : B) :
  mapM f l = Ok bs -> In b bs -> exists a, In a l /\ f a = Ok b.
Proof.
  revert bs. induction l as [|a l IH]; intros bs; cbn [mapM].
  - intros [= <-] [].
  - destruct (f a) as [b0|] eqn:Ha; [|discriminate].
    destruct (mapM f l) as [bs'|]; [|discriminate].
    intros [= <-] [->|Hin].
    + exists a. split; [now left | exact Ha].
    + destruct (IH bs' eq_refl Hin) as (a' & Ha' & Hfa').
      exists a'. split; [now right | exact Hfa'].
Qed.

Lemma getitem_In (a : list Z) (i x : Z) :
  Numpy.getitem a i = Ok x -> In x a.
Proof.
  unfold Numpy.getitem.
  destruct (Z.leb_spec 0 i), (Z.ltb_spec i (Z.of_nat (length a)));
    cbn [andb];
    try (intros [= <-]; apply nth_In; lia);
    destruct (Z.leb_spec (- Z.of_nat (length a)) i), (Z.ltb_spec i 0);
    cbn [andb];
    try (intros [= <-]; apply nth_In; lia); discriminate.
Qed.

Lemma Sampler_incl (size : nat) (local_data samples : list Z) :
  Sampler size local_data = Ok samples -> incl samples local_data.
Proof.
  intros Hok x Hx. unfold Sampler, Numpy.take in Hok.
  destruct (mapM_In_inv _ _ _ x Hok Hx) as (i & _ & Hi).
  now apply getitem_In in Hi.
Qed.

Lemma samples_from_world (world local_samples : list (list Z)) (x : Z) :
  mapM (Sampler (length world)) (map Numpy.sort world) = Ok local_samples ->
  In x (concat local_samples) -> In x (concat world).
Proof.
  intros Hok Hx. apply in_concat in Hx. destruct Hx as (s & Hs & Hx).
  destruct (mapM_In_inv _ _ _ s Hok Hs) as (ld & Hld & Hsamp).
  apply in_map_iff in Hld. destruct Hld as (w & <- & Hw).
  apply in_concat. exists w. split; [exact Hw|].
  apply (Permutation_in _ (sort_perm w)).
  exact (Sampler_incl _ _ _ Hsamp x Hx).
Qed.

Lemma pivots_from_samples (size : nat) (all_samples : list Z) (p : Z) :
  1 <= size -> In p (select_pivots size all_samples) -> In p all_samples.
Proof.
  intros Hsize Hp. unfold select_pivots in Hp.
  apply (stride_incl size _ Hsize) in Hp.
  exact (Permutation_in _ (sort_perm all_samples) Hp).
Qed.

Lemma shard_of_filter (world : list (list Z)) (pivots : list Z) (i : nat) :
  StronglySorted Z.le pivots -> i <= length pivots ->
  Permutation (shard_of (partitions_of world pivots) i)
              (filter (in_bucket pivots i) (concat world)).
Proof.
  intros Hp Hi. unfold shard_of, partitions_of. rewrite !map_map.
  rewrite <- concat_filter_map.
  apply Permutation_concat_map. intros w.
  rewrite Partitioner_nth; [| apply sort_sorted | exact Hp | exact Hi].
  apply Permutation_filter, sort_perm.
Qed.

(** X8.  When no chunk is empty, there is one non-decreasing array of [P - 1]
    pivots, all of them values of the input, such that rank [i] returns exactly
    the input values in the range of bucket [i], sorted: those [<= pivots[0]]
    on rank 0, those in [(pivots[i-1], pivots[i]]] in between, those
    [> pivots[P-2]] on the last rank. *)
Theorem shard_is_value_range_of_input (world : list (list Z)) :
  1 <= length world -> Forall (fun chunk => chunk <> []) world ->
  exists shards pivots,
    outcome (parallel_sample_sort world) = Ok shards /\
    Sorted Z.le pivots /\
    S (length pivots) = length world /\
    (forall p, In p pivots -> In p (concat world)) /\
    (forall i, i < length world ->
       nth i shards []
       = Numpy.sort (filter (in_bucket pivots i) (concat world))).
Proof.
  intros Hsize Hne.
  destruct (Sampler_all_nonempty world Hsize Hne) as (samples & Hs).
  set (pivots := select_pivots (length world) (concat samples)).
  assert (Hp : StronglySorted Z.le pivots)
    by (apply select_pivots_sorted; exact Hsize).
  assert (Hplen : S (length pivots) = length world).
  { unfold pivots. rewrite select_pivots_length; [lia | lia |].
    apply (gathered_samples_length _ (map Numpy.sort world));
      [lia | apply length_map | exact Hs]. }
  eexists. exists pivots.
  rewrite (parallel_sample_sort_closed world samples Hsize Hs).
  split; [reflexivity|]. split; [now apply StronglySorted_Sorted|].
  split; [exact Hplen|]. split.
  - intros p Hin. apply (samples_from_world world samples); [exact Hs|].
    now apply (pivots_from_samples (length world)).
  - intros i Hi.
    rewrite (nth_map_seq
               (fun i => Numpy.sort
                           (shard_of (partitions_of world
                              (select_pivots (length world) (concat samples))) i)))
      by exact Hi.
    apply sort_canonical. apply shard_of_filter; [exact Hp | lia].
Qed.

Lemma shard_is_value_range_of_input_witness :
  1 <= length [[5;3]; [8;1]; [9;2]]%Z /\
  Forall (fun chunk => chunk <> []) [[5;3]; [8;1]; [9;2]]%Z /\
  exists shards pivots,
    outcome (parallel_sample_sort [[5;3]; [8;1]; [9;2]]%Z) = Ok shards /\
    Sorted Z.le pivots /\
    S (length pivots) = length [[5;3]; [8;1]; [9;2]]%Z /\
    (forall p, In p pivots -> In p (concat [[5;3]; [8;1]; [9;2]]%Z)) /\
    (forall i, i < length [[5;3]; [8;1]; [9;2]]%Z ->
       nth i shards []
       = Numpy.sort (filter (in_bucket pivots i)
                            (concat [[5;3]; [8;1]; [9;2]]%Z))).
Proof.
  assert (H1 : 1 <= length [[5;3]; [8;1]; [9;2]]%Z) by (simpl; lia).
  assert (H2 : Forall (fun chunk => chunk <> []) [[5;3]; [8;1]; [9;2]]%Z)
    by (repeat constructor; discriminate).
  split; [exact H1|]. split; [exact H2|].
  exact (shard_is_value_range_of_input [[5;3]; [8;1]; [9;2]]%Z H1 H2).
Defined.

(** ** Pivots, buckets and the search on arbitrary input *)

(** X9.  After the Gather and the broadcast of lines 50-57 every rank of a
    group of at least one holds the same pivot array: the one the root
    selected from the gathered samples.  It is non-decreasing and each pivot
    is one of the gathered samples. *)
Theorem pivots_identical_on_every_rank (local_samples : list (list Z)) :
  1 <= length local_samples ->
  let size := length local_samples in
  let pivots := select_pivots size (concat local_samples) in
  (all_samples <- MPI.Gather local_samples ;;
   MPI.bcast (map (fun rank => pivots_at rank size (nth rank all_samples None))
                  (seq 0 size)))
  = ([Gather_call; bcast_call], Ok (repeat (Some pivots) size)) /\
  Sorted Z.le pivots /\
  (forall p, In p pivots -> In p (concat local_samples)).
Proof.
  intros Hsize. cbv zeta. split; [|split].
  - unfold MPI.Gather. rewrite bind_issue.
    unfold MPI.bcast, issue.
    rewrite root_pivots by (assumption || reflexivity).
    now rewrite (length_map _ (seq 0 (length local_samples))), length_seq.
  - apply StronglySorted_Sorted. now apply select_pivots_sorted.
  - intros p. now apply pivots_from_samples.
Qed.

Lemma pivots_identical_on_every_rank_witness :
  1 <= length [[1;4]; [2;5]; [0;3]]%Z /\
  let size := length [[1;4]; [2;5]; [0;3]]%Z in
  let pivots := select_pivots size (concat [[1;4]; [2;5]; [0;3]]%Z) in
  (all_samples <- MPI.Gather [[1;4]; [2;5]; [0;3]]%Z ;;
   MPI.bcast (map (fun rank => pivots_at rank size (nth rank all_samples None))
                  (seq 0 size)))
  = ([Gather_call; bcast_call], Ok (repeat (Some pivots) size)) /\
  Sorted Z.le pivots /\
  (forall p, In p pivots -> In p (concat [[1;4]; [2;5]; [0;3]]%Z)).
Proof.
  assert (H : 1 <= length [[1;4]; [2;5]; [0;3]]%Z) by (simpl; lia).
  split; [exact H|].
  exact (pivots_identical_on_every_rank [[1;4]; [2;5]; [0;3]]%Z H).
Defined.

(** X10.  Two equal adjacent pivots give an empty bucket between them,
    whatever the buffer and the other pivots are. *)
Theorem equal_pivots_empty_bucket (local_data pivots : list Z) (k : nat) :
  k + 1 < length pivots ->
  nth k pivots 0%Z = nth (k + 1) pivots 0%Z ->
  nth (k + 1) (Partitioner local_data pivots) [] = [].
Proof.
  intros Hk Heq. rewrite Partitioner_buckets, buckets_nth by lia.
  destruct (Nat.ltb_spec (k + 1) (length pivots)); [|lia].
  replace (k + 1) with (S k) by lia.
  replace (nth (S k) pivots 0%Z) with (nth k pivots 0%Z)
    by (rewrite Heq; f_equal; lia).
  unfold Numpy.slice. now rewrite Nat.sub_diag.
Qed.

Lemma equal_pivots_empty_bucket_witness :
  0 + 1 < length [2;2;6]%Z /\
  nth 0 [2;2;6]%Z 0%Z = nth (0 + 1) [2;2;6]%Z 0%Z /\
  nth (0 + 1) (Partitioner [1;2;2;3;5;8]%Z [2;2;6]%Z) [] = [].
Proof.
  assert (H1 : 0 + 1 < length [2;2;6]%Z) by (simpl; lia).
  assert (H2 : nth 0 [2;2;6]%Z 0%Z = nth (0 + 1) [2;2;6]%Z 0%Z)
    by reflexivity.
  split; [exact H1|]. split; [exact H2|].
  exact (equal_pivots_empty_bucket [1;2;2;3;5;8]%Z [2;2;6]%Z 0 H1 H2).
Defined.

Lemma bisect_right_bounds (a : list Z) (v : Z) :
  forall fuel lo hi, lo <= hi ->
    lo <= Numpy.bisect_right fuel a v lo hi <= hi.
Proof.
  induction fuel as [|fuel IH]; intros lo hi Hle; cbn [Numpy.bisect_right];
    [lia|].
  destruct (Nat.ltb_spec lo hi) as [Hlt|Hge]; [|lia].
  assert (Hhalf : (hi - lo) / 2 < hi - lo) by (apply Nat.div_lt; lia).
  destruct (nth (lo + (hi - lo) / 2) a 0 <=? v)%Z.
  - pose proof (IH (lo + (hi - lo) / 2 + 1) hi ltac:(lia)). lia.
  - pose proof (IH lo (lo + (hi - lo) / 2) ltac:(lia)). lia.
Qed.

Lemma slice_incl {A} (lo hi : nat) (l : list A) : incl (Numpy.slice lo hi l) l.
Proof.
  intros x Hx. unfold Numpy.slice in Hx.
  rewrite <- (firstn_skipn lo l). apply in_or_app. right.
  rewrite <- (firstn_skipn (hi - lo) (skipn lo l)).
  apply in_or_app. now left.
Qed.

Lemma buckets_incl (local_data pivots : list Z) :
  forall s bucket,
    In bucket (buckets local_data s pivots) -> incl bucket local_data.
Proof.
  induction pivots as [|p rest IH]; intros s bucket Hin; cbn [buckets] in Hin.
  - destruct Hin as [<-|[]]. unfold Numpy.slice_from. intros x Hx.
    rewrite <- (firstn_skipn s local_data). apply in_or_app. now right.
  - destruct Hin as [<-|Hin]; [apply slice_incl | now apply (IH _ _ Hin)].
Qed.

(** X11.  On any buffer and any pivots, sorted or not, the Partitioner returns
    one bucket more than there are pivots, every bucket holds only elements of
    the buffer, and every cut the search returns lies inside the buffer. *)
Theorem Partitioner_stays_in_buffer (local_data pivots : list Z) :
  length (Partitioner local_data pivots) = S (length pivots) /\
  Forall (fun bucket => incl bucket local_data)
         (Partitioner local_data pivots) /\
  Forall (fun pivot => Numpy.searchsorted local_data pivot <= length local_data)
         pivots.
Proof.
  split; [apply Partitioner_length|]. split.
  - apply Forall_forall. intros bucket Hin.
    rewrite Partitioner_buckets in Hin. now apply (buckets_incl _ _ _ _ Hin).
  - apply Forall_forall. intros pivot _. unfold Numpy.searchsorted.
    apply bisect_right_bounds. lia.
Qed.

(** X12.  On a sorted buffer the search with [side='right'] returns the
    number of elements [<= v]: everything before the returned position is
    [<= v], everything from it on is [> v], and a larger [v] never gives a
    smaller position. *)
Theorem searchsorted_right_contract (a : list Z) (v w : Z) :
  Sorted Z.le a -> (v <= w)%Z ->
  let k := Numpy.searchsorted a v in
  k = length (filter (fun x => (x <=? v)%Z) a) /\
  Forall (fun x => (x <= v)%Z) (firstn k a) /\
  Forall (fun x => (v < x)%Z) (skipn k a) /\
  k <= Numpy.searchsorted a w.
Proof.
  intros Hs Hvw. apply Sorted_le_strong in Hs. cbv zeta.
  split; [now apply searchsorted_count|]. split; [|split].
  - eapply Forall_impl; [|now apply searchsorted_prefix].
    simpl. intros x Hx. now apply Z.leb_le.
  - eapply Forall_impl; [|now apply searchsorted_suffix].
    simpl. intros x Hx. now apply Z.leb_gt.
  - now apply searchsorted_mono.
Qed.

Lemma searchsorted_right_contract_witness :
  Sorted Z.le [1;2;2;3;5;8]%Z /\ (2 <= 4)%Z /\
  let k := Numpy.searchsorted [1;2;2;3;5;8]%Z 2 in
  k = length (filter (fun x => (x <=? 2)%Z) [1;2;2;3;5;8]%Z) /\
  Forall (fun x => (x <= 2)%Z) (firstn k [1;2;2;3;5;8]%Z) /\
  Forall (fun x => (2 < x)%Z) (skipn k [1;2;2;3;5;8]%Z) /\
  k <= Numpy.searchsorted [1;2;2;3;5;8]%Z 4.
Proof.
  assert (H1 : Sorted Z.le [1;2;2;3;5;8]%Z) by (repeat constructor; lia).
  assert (H2 : (2 <= 4)%Z) by lia.
  split; [exact H1|]. split; [exact H2|].
  exact (searchsorted_right_contract [1;2;2;3;5;8]%Z 2 4 H1 H2).
Defined.

(** ** The exchange and the final gather *)

(** X13.  The receive buffer of the exchange has as many cells as the
    announced counts add up to, and the exchange overwrites all of them: what
    rank [i] holds afterwards is bucket [i] of rank 0, then of rank 1, and so
    on, whatever the buffer held before. *)
Theorem exchange_overwrites_receive_buffer
    (partitions : list (list (list Z))) (i : nat) (recv_buf : list Z) :
  Forall (fun parts => i < length parts) partitions ->
  let send_counts := map send_counts_of partitions in
  let recv_counts := map (fun row => nth i row 0) send_counts in
  length recv_buf = Numpy.sum_counts recv_counts ->
  MPI.Alltoallv_recv (map (@concat Z) partitions) send_counts
    (map Numpy.displs send_counts) i recv_buf (Numpy.displs recv_counts)
  = concat (map (fun parts => nth i parts []) partitions).
Proof.
  intros Hparts. cbv zeta. intros Hlen.
  rewrite recv_total in Hlen.
  exact (Alltoallv_recv_shard partitions i recv_buf Hparts Hlen).
Qed.

Lemma exchange_overwrites_receive_buffer_witness :
  Forall (fun parts => 1 < length parts) [[[1;2]; [3]]; [[]; [4;5;6]]]%Z /\
  let send_counts := map send_counts_of [[[1;2]; [3]]; [[]; [4;5;6]]]%Z in
  let recv_counts := map (fun row => nth 1 row 0) send_counts in
  length [9;9;9;9]%Z = Numpy.sum_counts recv_counts /\
  MPI.Alltoallv_recv (map (@concat Z) [[[1;2]; [3]]; [[]; [4;5;6]]]%Z)
    send_counts (map Numpy.displs send_counts) 1 [9;9;9;9]%Z
    (Numpy.displs recv_counts)
  = concat (map (fun parts => nth 1 parts []) [[[1;2]; [3]]; [[]; [4;5;6]]]%Z).
Proof.
  assert (H1 : Forall (fun parts => 1 < length parts)
                      [[[1;2]; [3]]; [[]; [4;5;6]]]%Z)
    by (repeat constructor).
  assert (H2 : length [9;9;9;9]%Z
               = Numpy.sum_counts
                   (map (fun row => nth 1 row 0)
                        (map send_counts_of [[[1;2]; [3]]; [[]; [4;5;6]]]%Z)))
    by reflexivity.
  split; [exact H1|]. split; [exact H2|].
  exact (exchange_overwrites_receive_buffer
           [[[1;2]; [3]]; [[]; [4;5;6]]]%Z 1 [9;9;9;9]%Z H1 H2).
Defined.

(** X14.  The displacements built by
    [np.insert(np.cumsum(counts), 0, 0)[:-1]] are the exclusive prefix sums of
    the counts: as many as there are counts, entry [m] being the total of the
    counts before [m], so that block [m] ends where block [m + 1] starts. *)
Theorem displs_exclusive_prefix_sums (counts : list nat) (m : nat) :
  m < length counts ->
  length (Numpy.displs counts) = length counts /\
  nth m (Numpy.displs counts) 0 = Numpy.sum_counts (firstn m counts) /\
  (S m < length counts ->
   nth (S m) (Numpy.displs counts) 0
   = nth m (Numpy.displs counts) 0 + nth m counts 0).
Proof.
  intros Hm. split; [apply displs_length|].
  split; [now apply displs_nth|].
  intros HSm. rewrite !displs_nth by lia.
  now apply sum_counts_firstn_succ.
Qed.

Lemma displs_exclusive_prefix_sums_witness :
  1 < length [4;3;5] /\
  length (Numpy.displs [4;3;5]) = length [4;3;5] /\
  nth 1 (Numpy.displs [4;3;5]) 0 = Numpy.sum_counts (firstn 1 [4;3;5]) /\
  (2 < length [4;3;5] ->
   nth 2 (Numpy.displs [4;3;5]) 0
   = nth 1 (Numpy.displs [4;3;5]) 0 + nth 1 [4;3;5] 0).
Proof.
  assert (H : 1 < length [4;3;5]) by (simpl; lia).
  split; [exact H|].
  exact (displs_exclusive_prefix_sums [4;3;5] 1 H).
Defined.









(** ** Samples and shards are sorted runs *)

(** X17.  On a non-empty sorted buffer the samples are elements of the
    buffer and come out in ascending order, so the root gathers [P] sorted
    runs of [P - 1] samples. *)
Theorem samples_ascending_from_buffer (size : nat) (local_data : list Z) :
  1 <= size -> local_data <> [] -> Sorted Z.le local_data ->
  exists samples,
    Sampler size local_data = Ok samples /\
    length samples = size - 1 /\
    incl samples local_data /\
    Sorted Z.le samples.
Proof.
  intros Hsize Hne Hs. apply Sorted_le_strong in Hs.
  pose proof (Sampler_nonempty size local_data Hsize Hne) as Hok.
  eexists. split; [exact Hok|]. split; [|split].
  - now rewrite length_map, sample_indices_length.
  - exact (Sampler_incl _ _ _ Hok).
  - apply StronglySorted_Sorted.
    rewrite sample_indices_eq, map_map by assumption.
    assert (Hn : 1 <= length local_data)
      by (destruct local_data; [congruence | simpl; lia]).
    apply StronglySorted_map_seq. intros i j Hij Hj.
    pose proof (sample_index_range size (length local_data) i Hn ltac:(lia)).
    pose proof (sample_index_range size (length local_data) j Hn ltac:(lia)).
    apply StronglySorted_nth; [exact Hs|].
    assert ((Z.of_nat i * (Z.of_nat (length local_data) - 1) / Z.of_nat size
             <= Z.of_nat j * (Z.of_nat (length local_data) - 1) / Z.of_nat size)%Z)
      by (apply Z.div_le_mono; nia).
    lia.
Qed.

Lemma samples_ascending_from_buffer_witness :
  1 <= 4 /\ [10;20;30;40;50;60;70]%Z <> [] /\
  Sorted Z.le [10;20;30;40;50;60;70]%Z /\
  exists samples,
    Sampler 4 [10;20;30;40;50;60;70]%Z = Ok samples /\
    length samples = 4 - 1 /\
    incl samples [10;20;30;40;50;60;70]%Z /\
    Sorted Z.le samples.
Proof.
  assert (H1 : 1 <= 4) by lia.
  assert (H2 : [10;20;30;40;50;60;70]%Z <> []) by discriminate.
  assert (H3 : Sorted Z.le [10;20;30;40;50;60;70]%Z)
    by (repeat constructor; lia).
  split; [exact H1|]. split; [exact H2|]. split; [exact H3|].
  exact (samples_ascending_from_buffer 4 [10;20;30;40;50;60;70]%Z H1 H2 H3).
Defined.

(** X18.  Whenever the sort ends normally, every rank's returned buffer is
    ascending on its own, and sorting it again leaves it unchanged. *)
Theorem every_shard_is_sorted (world shards : list (list Z)) :
  1 <= length world ->
  outcome (parallel_sample_sort world) = Ok shards ->
  Forall (fun shard => Sorted Z.le shard /\ Numpy.sort shard = shard) shards.
Proof.
  intros Hsize Hok.
  destruct (mapM (Sampler (length world)) (map Numpy.sort world))
    as [samples|e] eqn:Hs.
  - rewrite (parallel_sample_sort_closed world samples Hsize Hs) in Hok.
    injection Hok as <-. apply Forall_forall. intros shard Hin.
    apply in_map_iff in Hin. destruct Hin as (i & <- & _). split.
    + apply StronglySorted_Sorted, sort_sorted.
    + apply sort_sorted_id, sort_sorted.
  - rewrite (sampling_error_aborts world e Hs) in Hok. discriminate.
Qed.

Lemma every_shard_is_sorted_witness :
  1 <= length [[5;3;8;1]; [9;2;7;4]; [6;0;11;10]]%Z /\
  outcome (parallel_sample_sort [[5;3;8;1]; [9;2;7;4]; [6;0;11;10]]%Z)
  = Ok [[0;1;2;3]; [4;5;6]; [7;8;9;10;11]]%Z /\
  Forall (fun shard => Sorted Z.le shard /\ Numpy.sort shard = shard)
         [[0;1;2;3]; [4;5;6]; [7;8;9;10;11]]%Z.
Proof.
  assert (H1 : 1 <= length [[5;3;8;1]; [9;2;7;4]; [6;0;11;10]]%Z)
    by (simpl; lia).
  assert (H2 : outcome (parallel_sample_sort
                          [[5;3;8;1]; [9;2;7;4]; [6;0;11;10]]%Z)
               = Ok [[0;1;2;3]; [4;5;6]; [7;8;9;10;11]]%Z)
    by reflexivity.
  split; [exact H1|]. split; [exact H2|].
  exact (every_shard_is_sorted _ _ H1 H2).
Defined.
